(** * Voice-session core: GeminiLiveClient and the transcript aggregator

    A shallow embedding of [services/gemini-live] (class [GeminiLiveClient])
    and of the [onMessage] updater of [App].

    - The client's private fields form the record [Client].
    - The browser objects the client talks to (audio contexts, media stream,
      audio nodes, buffer sources, the session promise) are object
      identities: natural numbers drawn from a counter.
    - Every call on such an object, every console line and every callback
      into the UI is appended to a trace of [Effect]s, so the order of
      calls made by the code can be stated.
    - Methods are computations in a state-and-exception monad [M]; a
      JavaScript [try]/[catch] is [try_catch].
    - An [async] method is cut at each [await]: the part before it and its
      continuation are two handlers run by the event loop.
    - Times ([AudioContext.currentTime], [AudioBuffer.duration],
      [nextStartTime]) are exact rationals; the rounding of JavaScript
      doubles is not modelled. *)

From Stdlib Require Import ZArith QArith Qminmax List String Bool Lia Lqa.
Import ListNotations.

Local Open Scope Q_scope.

(** ** types.ts *)

Inductive CoachMode := PRONUNCIATION | ROLEPLAY | FREE_TALK.

Inductive RoleplayScenario := RESTAURANT | DIRECTIONS | INTERVIEW | NONE.

Record LiveConfig := {
  mode : CoachMode;
  scenario : option RoleplayScenario;
  voiceName : string
}.

Inductive Role := user | model.

Definition Role_eqb (a b : Role) : bool :=
  match a, b with
  | user, user | model, model => true
  | _, _ => false
  end.

Record Message := {
  id : Z;               (* Date.now(), before toString *)
  role : Role;
  text : string;
  isComplete : bool;
  timestamp : Z
}.

(** ** The inbound protocol message, as far as [handleMessage] reads it *)

Record ServerContent := {
  outputTranscription : option string;   (* the object, with its text *)
  inputTranscription : option string;
  turnComplete : bool;
  inlineData : option string;   (* modelTurn?.parts?.[0]?.inlineData?.data *)
  interrupted : bool
}.

Record LiveServerMessage := { serverContent : option ServerContent }.

Record AudioBuffer := { duration : Q }.

(** ** Exceptions, effects and the state *)

Inductive Exn :=
| TypeError          (* a method called on null *)
| NotAllowedError    (* getUserMedia rejected *)
| TransportError     (* ai.live.connect failed *)
| DecodeError        (* base64ToUint8Array threw or decodeAudioData rejected *)
| InvalidStateError. (* AudioBufferSourceNode.stop() raised *)

Inductive Effect :=
| NewAudioContext (ctx : nat) (sampleRate : Z)
| GetUserMedia
| LiveConnect (session : nat) (config : LiveConfig)
| CreateMediaStreamSource (node stream : nat)
| CreateScriptProcessor (node : nat)
| ConnectNodes (src dst : nat)
| TracksStop (stream : nat)
| NodeDisconnect (node : nat)
| ContextClose (ctx : nat)
| CreateBufferSource (src : nat)
| SourceStart (src : nat) (when : Q)
| SourceStop (src : nat)
| SessionCloseQueued (session : nat)
| ConsoleLog
| ConsoleError
| OnOpen
| OnClose
| OnError (e : Exn)
| OnMessage (text : string) (isUser isComplete : bool).

(** The private fields of [GeminiLiveClient]. [activeSources] is a
    JavaScript [Set]: no duplicates, iterated in insertion order. *)
Record Client := {
  inputAudioContext : option nat;
  outputAudioContext : option nat;
  mediaStream : option nat;
  processor : option nat;
  source : option nat;
  nextStartTime : Q;
  isConnected : bool;
  sessionPromise : option nat;
  activeSources : list nat
}.

(** The client, the [messages] state of [App], and the environment:
    decode promises not yet settled, the wall clock, the object counter and
    the trace. *)
Record World := {
  client : Client;
  messages : list Message;
  pending : list (list nat);   (* Uint8Arrays handed to decodeAudioData *)
  dateNow : Z;
  nextObject : nat;
  trace : list Effect
}.

Definition newClient : Client :=
  {| inputAudioContext := None; outputAudioContext := None;
     mediaStream := None; processor := None; source := None;
     nextStartTime := 0; isConnected := false;
     sessionPromise := None; activeSources := [] |}.

Definition newWorld : World :=
  {| client := newClient; messages := []; pending := [];
     dateNow := 0%Z; nextObject := O; trace := [] |}.

Module Monad.

Inductive Res (A : Type) : Type :=
| Ret (a : A) (w : World)
| Raise (e : Exn) (w : World).
Arguments Ret {A} a w.
Arguments Raise {A} e w.

Definition M (A : Type) : Type := World -> Res A.

Definition ret {A} (a : A) : M A := fun w => Ret a w.

Definition bind {A B} (m : M A) (k : A -> M B) : M B :=
  fun w => match m w with
           | Ret a w' => k a w'
           | Raise e w' => Raise e w'
           end.

Definition throw {A} (e : Exn) : M A := fun w => Raise e w.

(** [try { m } catch (e) { h e }] *)
Definition try_catch {A} (m : M A) (h : Exn -> M A) : M A :=
  fun w => match m w with
           | Ret a w' => Ret a w'
           | Raise e w' => h e w'
           end.

Definition world_of {A} (r : Res A) : World :=
  match r with Ret _ w => w | Raise _ w => w end.

End Monad.
Import Monad.

Declare Scope monad_scope.
Delimit Scope monad_scope with monad.
Notation "x <- m ;; k" := (bind m (fun x => k))
  (at level 61, m at next level, right associativity) : monad_scope.
Notation "m ;; k" := (bind m (fun _ => k))
  (at level 61, right associativity) : monad_scope.
Local Open Scope monad_scope.

(** ** Reading and writing the state *)

Definition this : M Client := fun w => Ret (client w) w.

Definition update (f : Client -> Client) : M unit :=
  fun w => Ret tt {| client := f (client w); messages := messages w;
                     pending := pending w; dateNow := dateNow w;
                     nextObject := nextObject w; trace := trace w |}.

Definition emit (e : Effect) : M unit :=
  fun w => Ret tt {| client := client w; messages := messages w;
                     pending := pending w; dateNow := dateNow w;
                     nextObject := nextObject w; trace := trace w ++ [e] |}.

(** A new browser object. *)
Definition fresh : M nat :=
  fun w => Ret (nextObject w)
               {| client := client w; messages := messages w;
                  pending := pending w; dateNow := dateNow w;
                  nextObject := S (nextObject w); trace := trace w |}.

Definition setMessages (f : Z -> list Message -> list Message) : M unit :=
  fun w => Ret tt {| client := client w;
                     messages := f (dateNow w) (messages w);
                     pending := pending w; dateNow := dateNow w;
                     nextObject := nextObject w; trace := trace w |}.

Definition setPending (f : list (list nat) -> list (list nat)) : M unit :=
  fun w => Ret tt {| client := client w; messages := messages w;
                     pending := f (pending w); dateNow := dateNow w;
                     nextObject := nextObject w; trace := trace w |}.

Definition set_inputAudioContext v (c : Client) : Client :=
  {| inputAudioContext := v; outputAudioContext := outputAudioContext c;
     mediaStream := mediaStream c; processor := processor c;
     source := source c; nextStartTime := nextStartTime c;
     isConnected := isConnected c; sessionPromise := sessionPromise c;
     activeSources := activeSources c |}.

Definition set_outputAudioContext v (c : Client) : Client :=
  {| inputAudioContext := inputAudioContext c; outputAudioContext := v;
     mediaStream := mediaStream c; processor := processor c;
     source := source c; nextStartTime := nextStartTime c;
     isConnected := isConnected c; sessionPromise := sessionPromise c;
     activeSources := activeSources c |}.

Definition set_mediaStream v (c : Client) : Client :=
  {| inputAudioContext := inputAudioContext c;
     outputAudioContext := outputAudioContext c;
     mediaStream := v; processor := processor c;
     source := source c; nextStartTime := nextStartTime c;
     isConnected := isConnected c; sessionPromise := sessionPromise c;
     activeSources := activeSources c |}.

Definition set_processor v (c : Client) : Client :=
  {| inputAudioContext := inputAudioContext c;
     outputAudioContext := outputAudioContext c;
     mediaStream := mediaStream c; processor := v;
     source := source c; nextStartTime := nextStartTime c;
     isConnected := isConnected c; sessionPromise := sessionPromise c;
     activeSources := activeSources c |}.

Definition set_source v (c : Client) : Client :=
  {| inputAudioContext := inputAudioContext c;
     outputAudioContext := outputAudioContext c;
     mediaStream := mediaStream c; processor := processor c;
     source := v; nextStartTime := nextStartTime c;
     isConnected := isConnected c; sessionPromise := sessionPromise c;
     activeSources := activeSources c |}.

Definition set_nextStartTime v (c : Client) : Client :=
  {| inputAudioContext := inputAudioContext c;
     outputAudioContext := outputAudioContext c;
     mediaStream := mediaStream c; processor := processor c;
     source := source c; nextStartTime := v;
     isConnected := isConnected c; sessionPromise := sessionPromise c;
     activeSources := activeSources c |}.

Definition set_isConnected v (c : Client) : Client :=
  {| inputAudioContext := inputAudioContext c;
     outputAudioContext := outputAudioContext c;
     mediaStream := mediaStream c; processor := processor c;
     source := source c; nextStartTime := nextStartTime c;
     isConnected := v; sessionPromise := sessionPromise c;
     activeSources := activeSources c |}.

Definition set_sessionPromise v (c : Client) : Client :=
  {| inputAudioContext := inputAudioContext c;
     outputAudioContext := outputAudioContext c;
     mediaStream := mediaStream c; processor := processor c;
     source := source c; nextStartTime := nextStartTime c;
     isConnected := isConnected c; sessionPromise := v;
     activeSources := activeSources c |}.

Definition set_activeSources v (c : Client) : Client :=
  {| inputAudioContext := inputAudioContext c;
     outputAudioContext := outputAudioContext c;
     mediaStream := mediaStream c; processor := processor c;
     source := source c; nextStartTime := nextStartTime c;
     isConnected := isConnected c; sessionPromise := sessionPromise c;
     activeSources := v |}.

(** ** The JavaScript [Set] of active sources *)

Definition Set_add (x : nat) (s : list nat) : list nat :=
  if existsb (Nat.eqb x) s then s else s ++ [x].

Definition Set_delete (x : nat) (s : list nat) : list nat :=
  filter (fun y => negb (Nat.eqb x y)) s.

(** [a < b] on times, as a boolean. *)
Definition Qltb (a b : Q) : bool :=
  (Qnum a * QDen b <? Qnum b * QDen a)%Z.

(** A string is truthy when it is not empty. *)
Definition truthy (s : string) : bool :=
  match s with EmptyString => false | _ => true end.

(** ** App: the [onMessage] callback

    [setMessages(prev => ...)] with the updater of [handleStartSession].
    [now] is the value of [Date.now()]. The appended-to record is the last
    element of [prev], changed in place. *)

Definition lastMsg (prev : list Message) : option Message :=
  nth_error prev (List.length prev - 1).

Definition onMessage (fragment : string) (isUser complete : bool)
    (now : Z) (prev : list Message) : list Message :=
  let r := if isUser then user else model in
  let fresh_record :=
    {| id := now; role := r; text := fragment;
       isComplete := complete || false; timestamp := now |} in
  match lastMsg prev with
  | Some m =>
      let isSameRole := Role_eqb (role m) r in
      if isSameRole && negb (isComplete m) then
        removelast prev ++
          [ {| id := id m; role := role m;
               text := String.append (text m) fragment;
               isComplete := if complete then true else isComplete m;
               timestamp := timestamp m |} ]
      else prev ++ [fresh_record]
  | None => prev ++ [fresh_record]
  end.

(** What the UI shows of a record: role, text and completeness. *)
Definition shown (m : Message) : Role * string * bool :=
  (role m, text m, isComplete m).

(** ** GeminiLiveClient *)

Section GeminiLiveClient.

(** [utils/audio-utils] is outside the sources at hand: its two decoders
    are parameters. [None] is a thrown exception, respectively a
    rejected promise. *)
Variable base64ToUint8Array : string -> option (list nat).
Variable decodeAudioData : list nat -> option AudioBuffer.

(** Whether [stop()] on a given buffer source raises. *)
Variable stop_raises : nat -> bool.

(** [this.events.onMessage?.(...)], with the callback [App] installs. *)
Definition events_onMessage (t : string) (isUser complete : bool) : M unit :=
  emit (OnMessage t isUser complete) ;;
  setMessages (onMessage t isUser complete).

Fixpoint forEach {A} (f : A -> M unit) (l : list A) : M unit :=
  match l with
  | [] => ret tt
  | x :: rest => f x ;; forEach f rest
  end.

Definition cleanup : M unit :=
  update (set_isConnected false) ;;
  (c <- this ;;
   match mediaStream c with
   | Some s => emit (TracksStop s) ;; update (set_mediaStream None)
   | None => ret tt
   end) ;;
  (c <- this ;;
   match processor c with
   | Some p => emit (NodeDisconnect p) ;; update (set_processor None)
   | None => ret tt
   end) ;;
  (c <- this ;;
   match source c with
   | Some s => emit (NodeDisconnect s) ;; update (set_source None)
   | None => ret tt
   end) ;;
  (c <- this ;;
   match inputAudioContext c with
   | Some a => emit (ContextClose a) ;; update (set_inputAudioContext None)
   | None => ret tt
   end) ;;
  (c <- this ;;
   match outputAudioContext c with
   | Some a => emit (ContextClose a) ;; update (set_outputAudioContext None)
   | None => ret tt
   end) ;;
  update (set_activeSources []) ;;
  update (set_nextStartTime 0).

Definition startAudioInput : M unit :=
  c <- this ;;
  match inputAudioContext c, mediaStream c with
  | Some ctx, Some ms =>
      s <- fresh ;;
      emit (CreateMediaStreamSource s ms) ;;
      update (set_source (Some s)) ;;
      p <- fresh ;;
      emit (CreateScriptProcessor p) ;;
      update (set_processor (Some p)) ;;
      emit (ConnectNodes s p) ;;
      emit (ConnectNodes p ctx)
  | _, _ => ret tt
  end.

(** The [catch] branch of [connect]. *)
Definition connect_catch (error : Exn) : M unit :=
  emit ConsoleError ;;
  emit (OnError error) ;;
  cleanup.

(** [connect], up to [await getUserMedia]. *)
Definition connect (config : LiveConfig) : M unit :=
  c <- this ;;
  if isConnected c then ret tt
  else
    try_catch
      (a <- fresh ;;
       emit (NewAudioContext a 16000) ;;
       update (set_inputAudioContext (Some a)) ;;
       b <- fresh ;;
       emit (NewAudioContext b 24000) ;;
       update (set_outputAudioContext (Some b)) ;;
       emit GetUserMedia)
      connect_catch.

(** [connect], from the settled [getUserMedia] promise on. [granted]
    tells whether the microphone was obtained, [transport_throws]
    whether [ai.live.connect] throws. The system instruction is a pure
    function of [config]; its text is not modelled, the transport is
    opened with [config]. *)
Definition connect_resume (config : LiveConfig)
    (granted transport_throws : bool) : M unit :=
  try_catch
    (if granted then
       s <- fresh ;;
       update (set_mediaStream (Some s)) ;;
       if transport_throws then throw TransportError
       else
         p <- fresh ;;
         emit (LiveConnect p config) ;;
         update (set_sessionPromise (Some p))
     else throw NotAllowedError)
    connect_catch.

(** The callbacks given to [ai.live.connect]. *)
Definition onopen : M unit :=
  emit ConsoleLog ;;
  update (set_isConnected true) ;;
  emit OnOpen ;;
  startAudioInput.

Definition onclose : M unit :=
  emit ConsoleLog ;;
  cleanup ;;
  emit OnClose.

Definition onerror : M unit :=
  emit ConsoleError ;;
  emit (OnError TransportError) ;;
  cleanup.

(** [playAudioChunk], up to [await decodeAudioData]. *)
Definition playAudioChunk (base64Audio : string) : M unit :=
  c <- this ;;
  match outputAudioContext c with
  | None => ret tt
  | Some _ =>
      try_catch
        (match base64ToUint8Array base64Audio with
         | Some uint8Array => setPending (fun q => q ++ [uint8Array])
         | None => throw DecodeError
         end)
        (fun _ => emit ConsoleError)
  end.

(** [source.start(when)] and [source.stop()]. *)
Definition source_start (src : nat) (when : Q) : M unit :=
  emit (SourceStart src when).

Definition source_stop (src : nat) : M unit :=
  emit (SourceStop src) ;;
  if stop_raises src then throw InvalidStateError else ret tt.

(** The rest of the [try] block, once the buffer is decoded. *)
Definition schedule (audioBuffer : AudioBuffer) (currentTime : Q) : M unit :=
  c <- this ;;
  match outputAudioContext c with
  | None => throw TypeError
  | Some ctx =>
      src <- fresh ;;
      emit (CreateBufferSource src) ;;
      emit (ConnectNodes src ctx) ;;
      (if Qltb (nextStartTime c) currentTime
       then update (set_nextStartTime currentTime)
       else ret tt) ;;
      c1 <- this ;;
      source_start src (nextStartTime c1) ;;
      update (set_nextStartTime (nextStartTime c1 + duration audioBuffer)) ;;
      c2 <- this ;;
      update (set_activeSources (Set_add src (activeSources c2)))
  end.

(** [playAudioChunk], from the settled decode promise on: the oldest
    pending decode settles while the device clock reads [currentTime]. *)
Definition playAudioChunk_resume (currentTime : Q) : M unit :=
  fun w =>
    match pending w with
    | [] => Ret tt w
    | uint8Array :: rest =>
        (setPending (fun _ => rest) ;;
         try_catch
           (match decodeAudioData uint8Array with
            | Some audioBuffer => schedule audioBuffer currentTime
            | None => throw DecodeError
            end)
           (fun _ => emit ConsoleError)) w
    end.

(** [source.onended]. *)
Definition onended (src : nat) : M unit :=
  c <- this ;;
  update (set_activeSources (Set_delete src (activeSources c))).

Definition handleMessage (message : LiveServerMessage) : M unit :=
  let content := serverContent message in
  let field {A} (f : ServerContent -> option A) : option A :=
    match content with Some sc => f sc | None => None end in
  let flag (f : ServerContent -> bool) : bool :=
    match content with Some sc => f sc | None => false end in
  (match field outputTranscription with
   | Some t => events_onMessage t false false
   | None =>
       match field inputTranscription with
       | Some t => events_onMessage t true false
       | None => ret tt
       end
   end) ;;
  (if flag turnComplete
   then events_onMessage EmptyString false true
   else ret tt) ;;
  (c <- this ;;
   match field inlineData, outputAudioContext c with
   | Some audioData, Some _ =>
       if truthy audioData then playAudioChunk audioData else ret tt
   | _, _ => ret tt
   end) ;;
  (if flag interrupted then
     c <- this ;;
     forEach (fun s => try_catch (source_stop s) (fun _ => ret tt))
             (activeSources c) ;;
     update (set_activeSources []) ;;
     update (set_nextStartTime 0)
   else ret tt).

Definition disconnect : M unit :=
  cleanup ;;
  (c <- this ;;
   match sessionPromise c with
   | Some p => emit (SessionCloseQueued p)
   | None => ret tt
   end) ;;
  update (set_isConnected false).

(** The decode promises settle one after another, at the given clock
    readings. *)
Fixpoint settle (clock : list Q) : M unit :=
  match clock with
  | [] => ret tt
  | currentTime :: later => playAudioChunk_resume currentTime ;; settle later
  end.

End GeminiLiveClient.

(** ** Reading a trace *)

(** The start times given to [source.start], in program order. *)
Definition starts (t : list Effect) : list Q :=
  flat_map (fun e => match e with SourceStart _ q => [q] | _ => [] end) t.

(** The buffer sources on which [stop()] was called. *)
Definition stops (t : list Effect) : list nat :=
  flat_map (fun e => match e with SourceStop s => [s] | _ => [] end) t.

(** The buffer sources created. *)
Definition created (t : list Effect) : list nat :=
  flat_map (fun e => match e with CreateBufferSource s => [s] | _ => [] end) t.

(** The fragments and signals given to [events.onMessage]. *)
Definition routed (t : list Effect) : list (string * bool * bool) :=
  flat_map (fun e => match e with
                     | OnMessage s u c => [(s, u, c)]
                     | _ => []
                     end) t.

(** The errors given to [events.onError]. *)
Definition surfaced (t : list Effect) : list Exn :=
  flat_map (fun e => match e with OnError x => [x] | _ => [] end) t.

(** The transports opened by [ai.live.connect]. *)
Definition transports (t : list Effect) : list nat :=
  flat_map (fun e => match e with LiveConnect s _ => [s] | _ => [] end) t.

(** The audio contexts constructed. *)
Definition contexts (t : list Effect) : list nat :=
  flat_map (fun e => match e with NewAudioContext a _ => [a] | _ => [] end) t.

(** The calls that give a device object back, for the handles a client
    holds, in the order [cleanup] makes them. *)
Definition handle {A} (f : nat -> A) (h : option nat) : list A :=
  match h with Some x => [f x] | None => [] end.

Definition releases (c : Client) : list Effect :=
  handle TracksStop (mediaStream c) ++
  handle NodeDisconnect (processor c) ++
  handle NodeDisconnect (source c) ++
  handle ContextClose (inputAudioContext c) ++
  handle ContextClose (outputAudioContext c).

(** The part of a trace that precedes the first call of [events.onError]. *)
Fixpoint until_error (t : list Effect) : list Effect :=
  match t with
  | [] => []
  | OnError _ :: _ => []
  | e :: rest => e :: until_error rest
  end.

(** A client that holds no device object and is not connected. *)
Definition released (c : Client) : Prop :=
  inputAudioContext c = None /\ outputAudioContext c = None /\
  mediaStream c = None /\ processor c = None /\ source c = None /\
  isConnected c = false /\ activeSources c = [] /\ nextStartTime c = 0.

Definition add_trace (t : list Effect) (w : World) : World :=
  {| client := client w; messages := messages w; pending := pending w;
     dateNow := dateNow w; nextObject := nextObject w;
     trace := trace w ++ t |}.

(** ** The scheduling rule, on its own

    [timeline t chunks] lists the start times the rule of [schedule] gives
    to chunks that arrive with clock reading and duration [(now, d)], from
    [nextStartTime = t] on; [timeline_end] is [nextStartTime] afterwards. *)
Fixpoint timeline (t : Q) (chunks : list (Q * AudioBuffer)) : list Q :=
  match chunks with
  | [] => []
  | (now, b) :: rest =>
      Qmax t now :: timeline (Qmax t now + duration b) rest
  end.

Fixpoint timeline_end (t : Q) (chunks : list (Q * AudioBuffer)) : Q :=
  match chunks with
  | [] => t
  | (now, b) :: rest => timeline_end (Qmax t now + duration b) rest
  end.

(** The chunks whose decode succeeded. *)
Fixpoint kept (chunks : list (Q * option AudioBuffer)) : list (Q * AudioBuffer) :=
  match chunks with
  | [] => []
  | (now, Some b) :: rest => (now, b) :: kept rest
  | (_, None) :: rest => kept rest
  end.

(** ** Stand-ins for the examples *)

(** A decoder for the examples: the payload ["!"] is not base64; other
    payloads give one byte, their length. *)
Definition example_base64 (s : string) : option (list nat) :=
  if String.eqb s "!" then None else Some [String.length s].

(** A decoder for the examples: the first byte is the duration in seconds;
    an empty array, or one that starts with 0, is rejected. *)
Definition example_decode (bytes : list nat) : option AudioBuffer :=
  match bytes with
  | S n :: _ => Some {| duration := inject_Z (Z.of_nat (S n)) |}
  | _ => None
  end.

Definition example_config : LiveConfig :=
  {| mode := FREE_TALK; scenario := None; voiceName := "Puck" |}.

(** Inbound messages that carry one thing each. *)
Definition user_fragment (s : string) : LiveServerMessage :=
  {| serverContent :=
       Some {| outputTranscription := None; inputTranscription := Some s;
               turnComplete := false; inlineData := None;
               interrupted := false |} |}.

Definition agent_fragment (s : string) : LiveServerMessage :=
  {| serverContent :=
       Some {| outputTranscription := Some s; inputTranscription := None;
               turnComplete := false; inlineData := None;
               interrupted := false |} |}.

Definition turn_complete : LiveServerMessage :=
  {| serverContent :=
       Some {| outputTranscription := None; inputTranscription := None;
               turnComplete := true; inlineData := None;
               interrupted := false |} |}.

Definition audio_chunk (s : string) : LiveServerMessage :=
  {| serverContent :=
       Some {| outputTranscription := None; inputTranscription := None;
               turnComplete := false; inlineData := Some s;
               interrupted := false |} |}.

Definition interrupted_content : ServerContent :=
  {| outputTranscription := None; inputTranscription := None;
     turnComplete := false; inlineData := None; interrupted := true |}.

(** [stop()] raises on source 6 only. *)
Definition raises_on_6 (src : nat) : bool := Nat.eqb src 6.

(** A message with both transcriptions. *)
Definition both_fragments (agent usr : string) : LiveServerMessage :=
  {| serverContent :=
       Some {| outputTranscription := Some agent;
               inputTranscription := Some usr;
               turnComplete := false; inlineData := None;
               interrupted := false |} |}.

(** Handlers run one after another by the event loop. *)
Fixpoint run (handlers : list (M unit)) : M unit :=
  match handlers with
  | [] => ret tt
  | h :: rest => h ;; run rest
  end.

(** A session whose output context exists, with the given decodes pending. *)
Definition playing (t : Q) (active : list nat) (queue : list (list nat)) : World :=
  {| client :=
       {| inputAudioContext := Some 0%nat; outputAudioContext := Some 1%nat;
          mediaStream := Some 2%nat; processor := Some 5%nat;
          source := Some 4%nat; nextStartTime := t; isConnected := true;
          sessionPromise := Some 3%nat; activeSources := active |};
     messages := []; pending := queue; dateNow := 0%Z;
     nextObject := 6%nat; trace := [] |}.

(** Two chunks of 1 s and 2 s, the second scheduled before the first
    has played out; and a session where their decodes are pending. *)
Definition two_chunks : list (Q * AudioBuffer) :=
  [ (0, {| duration := 1 |}); (0.5, {| duration := 2 |}) ].

Definition two_pending : World := playing 0 [] [[1%nat]; [2%nat]].

(** Three chunks, the second of which fails to decode. *)
Definition three_chunks : list (Q * option AudioBuffer) :=
  [ (0, Some {| duration := 2 |}); (1, None); (1, Some {| duration := 3 |}) ].

Definition three_pending : World := playing 0 [] [[2%nat]; [0%nat]; [3%nat]].

(** Two units in the active-set and a timeline that ends at 10 s. *)
Definition two_active : World := playing 10 [6%nat; 7%nat] [[1%nat]].

(** A client whose first connect has asked for the transport and whose
    onopen has not been called yet; and the same client after a second
    connect. *)
Definition connecting : World :=
  world_of (run [ connect example_config;
                  connect_resume example_config true false ] newWorld).

Definition connecting_again : World :=
  world_of (run [ connect example_config;
                  connect_resume example_config true false ] connecting).

(** An open record of the user. *)
Definition example_hi : Message :=
  {| id := 7; role := user; text := "hi"; isComplete := false;
     timestamp := 7 |}.

Definition never_raises (src : nat) : bool := false.

(** ** More of App: the transcript for the grader *)

(** [generateReport]: ['user'.toUpperCase()], ['model'.toUpperCase()]. *)
Definition role_toUpperCase (r : Role) : string :=
  match r with user => "USER" | model => "MODEL" end.

Definition newline : string := String (Ascii.ascii_of_nat 10) EmptyString.

(** [messages.map(m => `${m.role.toUpperCase()}: ${m.text}`).join('\n')] *)
Definition transcriptText (ms : list Message) : string :=
  String.concat newline
    (map (fun m => String.append (role_toUpperCase (role m))
                     (String.append ": " (text m))) ms).

(** An open record of the agent, and a transcript that ends with it. *)
Definition example_hey : Message :=
  {| id := 8; role := model; text := "hey"; isComplete := false;
     timestamp := 8 |}.

Definition example_sealed : Message :=
  {| id := 5; role := user; text := "hello"; isComplete := true;
     timestamp := 5 |}.

Definition with_messages (ms : list Message) (w : World) : World :=
  {| client := client w; messages := ms; pending := pending w;
     dateNow := dateNow w; nextObject := nextObject w; trace := trace w |}.

(** ** The event loop

    What the browser and the session can do to a client: the two public
    methods, the settling of the two awaited promises, and the callbacks. *)
Inductive Event :=
| CallConnect (config : LiveConfig)
| MediaSettled (config : LiveConfig) (granted transport_throws : bool)
| SessionOpened
| SessionClosed
| SessionErrored
| Inbound (message : LiveServerMessage)
| DecodeSettled (currentTime : Q)
| SourceEnded (src : nat)
| CallDisconnect.

Section EventLoop.

Variable base64ToUint8Array : string -> option (list nat).
Variable decodeAudioData : list nat -> option AudioBuffer.
Variable stop_raises : nat -> bool.

Definition handler (e : Event) : M unit :=
  match e with
  | CallConnect config => connect config
  | MediaSettled config granted transport_throws =>
      connect_resume config granted transport_throws
  | SessionOpened => onopen
  | SessionClosed => onclose
  | SessionErrored => onerror
  | Inbound message => handleMessage base64ToUint8Array stop_raises message
  | DecodeSettled currentTime =>
      playAudioChunk_resume decodeAudioData currentTime
  | SourceEnded src => onended src
  | CallDisconnect => disconnect
  end.

Definition events (es : list Event) : M unit := run (map handler es).

End EventLoop.

(** The ways one handler can change the fields of the client. *)
Inductive Change (decodeAudioData : list nat -> option AudioBuffer)
    (w : World) (new : list Effect) (c' : Client) : Prop :=
| Unchanged :
    c' = client w -> Change decodeAudioData w new c'
| ContextsBuilt (a b : nat) :
    isConnected (client w) = false ->
    c' = set_outputAudioContext (Some b)
           (set_inputAudioContext (Some a) (client w)) ->
    Change decodeAudioData w new c'
| TransportRequested (s p : nat) :
    c' = set_sessionPromise (Some p) (set_mediaStream (Some s) (client w)) ->
    Change decodeAudioData w new c'
| Cleaned :
    c' = {| inputAudioContext := None; outputAudioContext := None;
            mediaStream := None; processor := None; source := None;
            nextStartTime := 0; isConnected := false;
            sessionPromise := sessionPromise (client w);
            activeSources := [] |} ->
    Change decodeAudioData w new c'
| PipelineStarted (ctx ms s p : nat) :
    inputAudioContext (client w) = Some ctx ->
    mediaStream (client w) = Some ms ->
    c' = set_processor (Some p)
           (set_source (Some s) (set_isConnected true (client w))) ->
    Change decodeAudioData w new c'
| OpenedWithoutPipeline :
    inputAudioContext (client w) = None \/ mediaStream (client w) = None ->
    c' = set_isConnected true (client w) ->
    Change decodeAudioData w new c'
| Interrupted :
    c' = set_nextStartTime 0 (set_activeSources [] (client w)) ->
    Change decodeAudioData w new c'
| Scheduled (ctx : nat) (uint8Array : list nat) (audioBuffer : AudioBuffer)
    (currentTime : Q) :
    outputAudioContext (client w) = Some ctx ->
    decodeAudioData uint8Array = Some audioBuffer ->
    In (SourceStart (nextObject w)
                    (Qmax (nextStartTime (client w)) currentTime)) new ->
    starts new = [Qmax (nextStartTime (client w)) currentTime] ->
    c' = set_activeSources
           (Set_add (nextObject w) (activeSources (client w)))
           (set_nextStartTime
              (Qmax (nextStartTime (client w)) currentTime
               + duration audioBuffer)
              (client w)) ->
    Change decodeAudioData w new c'
| Ended (src : nat) :
    c' = set_activeSources (Set_delete src (activeSources (client w)))
                           (client w) ->
    Change decodeAudioData w new c'.

(** ** connect: the system instruction

    The text [connect] builds from [config] before it opens the
    transport. A template literal is given line by line. *)

Definition coach_instruction : string :=
  "You are a friendly and helpful English language coach."%string.

(** Mode [PRONUNCIATION]. *)
Definition pronunciation_instruction : string :=
  String.concat newline
    [ EmptyString;
      "          You are a strict but encouraging Pronunciation Coach."%string;
      "          Your Goal: Guide the user through a drill of common English words that are difficult to pronounce (like 'thorough', 'squirrel', 'colonel', 'rural', 'phenomenon', 'specific')."%string;
      "          Process: "%string;
      "          1. Propose a word."%string;
      "          2. Ask the user to say it."%string;
      "          3. Listen carefully to their pronunciation."%string;
      "          4. If it's correct, praise them and move to the next word."%string;
      "          5. If it's incorrect, explain exactly how to move their tongue or lips to fix it (e.g., 'Put your tongue between your teeth for the TH sound')."%string;
      "          6. Ask them to try again."%string;
      "          Keep your responses short and focused on the sounds."%string;
      "        "%string ].

(** [switch (config.scenario)], with its [default]. *)
Definition scenarioContext (s : option RoleplayScenario) : string :=
  match s with
  | Some RESTAURANT =>
      "You are a waiter at a busy, popular restaurant. The user is a customer. Start by welcoming them and asking what they would like to drink."%string
  | Some DIRECTIONS =>
      "You are a friendly local on the street. The user looks lost and will ask you for directions to a landmark (like the train station or museum). Provide clear but slightly complex directions to test their understanding."%string
  | Some INTERVIEW =>
      "You are a hiring manager for a major tech company. The user is a candidate for a Software Engineering role. Start by asking: 'Tell me a little about yourself and why you want this job.' Be professional and ask follow-up questions."%string
  | _ =>
      "Pick a common real-world scenario (like returning an item to a store) and start the roleplay."%string
  end.

(** Mode [ROLEPLAY]: the template up to the scenario. *)
Definition roleplay_head : string :=
  String.concat newline
    [ EmptyString;
      "          Act as a roleplay partner. "%string ].

(** Mode [ROLEPLAY]: the template after the scenario. *)
Definition roleplay_tail : string :=
  String.concat newline
    [ EmptyString;
      "          Stay in character at all times. Do not break character to explain grammar rules unless the user specifically asks for help or makes a very serious mistake that prevents understanding."%string;
      "          Keep the conversation flowing naturally."%string;
      "        "%string ].

Definition systemInstruction (config : LiveConfig) : string :=
  match mode config with
  | PRONUNCIATION => pronunciation_instruction
  | ROLEPLAY =>
      String.append roleplay_head
        (String.append (scenarioContext (scenario config)) roleplay_tail)
  | FREE_TALK =>
      String.append coach_instruction
        " Engage in free-flowing conversation about hobbies, news, or daily life. Correct major grammar and vocabulary mistakes naturally as they happen, but prioritize the flow of conversation."%string
  end.

(** ** SessionSetup

    The state of the setup screen and what the user can do to it. The
    scenario buttons are rendered from [SCENARIOS], and only in mode
    [ROLEPLAY]; the voice menu is rendered from [VOICES]. Of an entry of
    [SCENARIOS] the icon is left out. *)

Definition VOICES : list (string * string) :=
  [ ("Puck"%string, "Puck (Neutral, Clear)"%string);
    ("Kore"%string, "Kore (Warm, Calm)"%string);
    ("Fenrir"%string, "Fenrir (Deep, Authoritative)"%string);
    ("Aoede"%string, "Aoede (Soft, Friendly)"%string);
    ("Charon"%string, "Charon (Professional, Direct)"%string) ].

Definition SCENARIOS : list (RoleplayScenario * string) :=
  [ (RESTAURANT, "Practice ordering food and asking for recommendations."%string);
    (DIRECTIONS, "Ask a local for directions and understand instructions."%string);
    (INTERVIEW, "Answer common interview questions professionally."%string) ].

Record SetupState := {
  setup_mode : CoachMode;
  setup_scenario : RoleplayScenario;
  setup_voice : string
}.

(** The three [useState] initial values. *)
Definition initialSetup : SetupState :=
  {| setup_mode := FREE_TALK; setup_scenario := RESTAURANT;
     setup_voice := "Puck"%string |}.

Inductive Click :=
| ClickMode (m : CoachMode)      (* a button of Object.values(CoachMode) *)
| ClickScenario (k : nat)        (* the k-th button of SCENARIOS.map *)
| SelectVoice (k : nat).         (* the k-th option of VOICES.map *)

Definition CoachMode_eqb (a b : CoachMode) : bool :=
  match a, b with
  | PRONUNCIATION, PRONUNCIATION | ROLEPLAY, ROLEPLAY
  | FREE_TALK, FREE_TALK => true
  | _, _ => false
  end.

Definition click (c : Click) (s : SetupState) : SetupState :=
  match c with
  | ClickMode m =>
      {| setup_mode := m; setup_scenario := setup_scenario s;
         setup_voice := setup_voice s |}
  | ClickScenario k =>
      if CoachMode_eqb (setup_mode s) ROLEPLAY then
        match nth_error SCENARIOS k with
        | Some entry =>
            {| setup_mode := setup_mode s; setup_scenario := fst entry;
               setup_voice := setup_voice s |}
        | None => s
        end
      else s
  | SelectVoice k =>
      match nth_error VOICES k with
      | Some v =>
          {| setup_mode := setup_mode s; setup_scenario := setup_scenario s;
             setup_voice := fst v |}
      | None => s
      end
  end.

(** [handleStart]: the config given to [onStart]. *)
Definition handleStart (s : SetupState) : LiveConfig :=
  {| mode := setup_mode s;
     scenario := Some (if CoachMode_eqb (setup_mode s) ROLEPLAY
                       then setup_scenario s else NONE);
     voiceName := setup_voice s |}.

Definition clicks (cs : list Click) : SetupState :=
  fold_left (fun s c => click c s) cs initialSetup.

(** ** startAudioInput: the [onaudioprocess] callback

    What one callback of the script processor gives out: the loudness for
    [events.onAudioData] and the blob sent on the session. [Math.sqrt] and
    [createPcmBlob] (of [utils/audio-utils]) are parameters. *)

Inductive Capture :=
| OnAudioData (amplitude : Q)
| SendRealtimeInput (session : nat) (media : list nat).

(** [let sum = 0; for (...) sum += inputData[i] * inputData[i];] *)
Definition sumOfSquares (inputData : list Q) : Q :=
  fold_left (fun sum x => sum + x * x) inputData 0.

(** [sum / inputData.length], the argument of [Math.sqrt]. *)
Definition meanSquare (inputData : list Q) : Q :=
  sumOfSquares inputData / inject_Z (Z.of_nat (List.length inputData)).

Section Capture.

Variable Math_sqrt : Q -> Q.
Variable createPcmBlob : list Q -> list nat.

Definition onaudioprocess (inputData : list Q) (c : Client) : list Capture :=
  match isConnected c, sessionPromise c with
  | true, Some session =>
      let amplitude := Math_sqrt (meanSquare inputData) in
      [ OnAudioData amplitude;
        SendRealtimeInput session (createPcmBlob inputData) ]
  | _, _ => []
  end.

End Capture.

(** ** AudioVisualizer: the radius of the circle

    [render] is called once per animation frame; [currentRadius] starts
    at 50 each time the effect is set up. Arithmetic is exact. *)

Definition baseRadius : Q := 50.
Definition maxRadius : Q := 120.

Definition targetRadius (amplitude : Q) : Q :=
  baseRadius + (amplitude * (maxRadius - baseRadius) * 2).

(** [currentRadius += (targetRadius - currentRadius) * 0.2] *)
Definition smooth (amplitude currentRadius : Q) : Q :=
  currentRadius + (targetRadius amplitude - currentRadius) * 0.2.

Inductive Draw :=
| Glow (radius : Q)
| MainCircle (radius : Q) (blue : bool)
| Ripple (radius : Q).

(** One call of [render]: what is drawn, and [currentRadius] afterwards. *)
Definition render (isActive : bool) (amplitude currentRadius : Q)
  : list Draw * Q :=
  let r := smooth amplitude currentRadius in
  ((if isActive then [Glow (r * 1.5)] else []) ++
   [MainCircle (if isActive then r else baseRadius) isActive] ++
   (if isActive && Qltb 0.05 amplitude then [Ripple (r * 0.8)] else []),
   r).

(** [currentRadius] after [n] frames. *)
Fixpoint radius_after (n : nat) (isActive : bool) (amplitude : Q) : Q :=
  match n with
  | O => 50
  | S k => snd (render isActive amplitude (radius_after k isActive amplitude))
  end.

(** * Properties *)

(** ** The monad and the trace *)

Lemma add_trace_nil (w : World) : add_trace [] w = w.
Proof.
  destruct w; unfold add_trace; simpl. now rewrite app_nil_r.
Qed.

Lemma add_trace_app (a b : list Effect) (w : World) :
  add_trace b (add_trace a w) = add_trace (a ++ b) w.
Proof.
  unfold add_trace; simpl. now rewrite app_assoc.
Qed.

Lemma emit_eq (e : Effect) (w : World) : emit e w = Ret tt (add_trace [e] w).
Proof. reflexivity. Qed.

Lemma starts_app (a b : list Effect) : starts (a ++ b) = starts a ++ starts b.
Proof. apply flat_map_app. Qed.

Lemma stops_app (a b : list Effect) : stops (a ++ b) = stops a ++ stops b.
Proof. apply flat_map_app. Qed.

Lemma routed_app (a b : list Effect) : routed (a ++ b) = routed a ++ routed b.
Proof. apply flat_map_app. Qed.

Lemma surfaced_app (a b : list Effect) :
  surfaced (a ++ b) = surfaced a ++ surfaced b.
Proof. apply flat_map_app. Qed.

Lemma created_app (a b : list Effect) :
  created (a ++ b) = created a ++ created b.
Proof. apply flat_map_app. Qed.

Lemma created_map_SourceStop (l : list nat) : created (map SourceStop l) = [].
Proof. induction l; simpl; congruence. Qed.

Lemma surfaced_map_SourceStop (l : list nat) : surfaced (map SourceStop l) = [].
Proof. induction l; simpl; congruence. Qed.

Lemma stops_map_SourceStop (l : list nat) : stops (map SourceStop l) = l.
Proof. induction l; simpl; congruence. Qed.

Lemma starts_map_SourceStop (l : list nat) : starts (map SourceStop l) = [].
Proof. induction l; simpl; congruence. Qed.

Lemma routed_map_SourceStop (l : list nat) : routed (map SourceStop l) = [].
Proof. induction l; simpl; congruence. Qed.

(** ** The transcript *)

Lemma lastMsg_snoc (l : list Message) (m : Message) :
  lastMsg (l ++ [m]) = Some m.
Proof.
  unfold lastMsg. rewrite length_app. simpl.
  replace (List.length l + 1 - 1)%nat with (List.length l) by lia.
  rewrite nth_error_app2 by lia. now rewrite Nat.sub_diag.
Qed.

(** A fragment of the role of the last, open record is appended to it. *)
Lemma onMessage_same_role (prev : list Message) (m : Message)
    (fragment : string) (isUser complete : bool) (now : Z) :
  lastMsg prev = Some m ->
  isComplete m = false ->
  role m = (if isUser then user else model) ->
  onMessage fragment isUser complete now prev =
    removelast prev ++
      [ {| id := id m; role := role m;
           text := String.append (text m) fragment;
           isComplete := complete; timestamp := timestamp m |} ].
Proof.
  intros Hl Hc Hr. unfold onMessage. rewrite Hl, Hc, Hr.
  destruct isUser, complete; reflexivity.
Qed.

(** Anything else opens a record. *)
Lemma onMessage_new_record (prev : list Message)
    (fragment : string) (isUser complete : bool) (now : Z) :
  (forall m, lastMsg prev = Some m ->
             isComplete m = true \/ role m <> (if isUser then user else model)) ->
  onMessage fragment isUser complete now prev =
    prev ++ [ {| id := now; role := if isUser then user else model;
                 text := fragment; isComplete := complete;
                 timestamp := now |} ].
Proof.
  intros H. unfold onMessage. rewrite orb_false_r.
  destruct (lastMsg prev) as [m|]; [|reflexivity].
  destruct (H m eq_refl) as [Hc | Hr].
  - rewrite Hc, andb_false_r. reflexivity.
  - destruct (role m), isUser; simpl; try reflexivity; now elim Hr.
Qed.

(** C4, as the code has it: a fragment of the opposite role, arriving
    while the last record is open with role R, leaves every earlier record
    as it was, the last one included and still open, and appends one open
    record of the new role; the fragments user "hi", agent "hey" give two
    records, not one merged record, and both are incomplete. *)
Theorem role_switch_appends_and_leaves_open :
  forall (prev : list Message) (m : Message) (fragment : string)
         (isUser : bool) (now : Z),
    lastMsg prev = Some m ->
    isComplete m = false ->
    role m <> (if isUser then user else model) ->
    (onMessage fragment isUser false now prev =
       prev ++ [ {| id := now; role := if isUser then user else model;
                    text := fragment; isComplete := false;
                    timestamp := now |} ]
     /\ nth_error (onMessage fragment isUser false now prev)
                  (List.length prev - 1) = Some m)
    /\ forall base64 stop_raises,
         map shown
             (messages
                (world_of
                   (run [ handleMessage base64 stop_raises (user_fragment "hi");
                          handleMessage base64 stop_raises (agent_fragment "hey") ]
                        newWorld)))
         = [ (user, "hi"%string, false); (model, "hey"%string, false) ].
Proof.
  intros prev m fragment isUser now Hl Hc Hr. split.
  - assert (E : onMessage fragment isUser false now prev =
                prev ++ [ {| id := now; role := if isUser then user else model;
                             text := fragment; isComplete := false;
                             timestamp := now |} ]).
    { apply onMessage_new_record. intros m' Hm'. right.
      rewrite Hl in Hm'. now injection Hm' as <-. }
    split; [exact E|]. rewrite E.
    rewrite nth_error_app1.
    + exact Hl.
    + destruct prev; [discriminate|]. simpl. lia.
  - intros base64 stop_raises. reflexivity.
Qed.

Lemma role_switch_witness :
  (onMessage "hey" false false 9 [example_hi] =
     [example_hi] ++
       [ {| id := 9; role := model; text := "hey"; isComplete := false;
            timestamp := 9 |} ]
   /\ nth_error (onMessage "hey" false false 9 [example_hi])
                (List.length [example_hi] - 1)
      = Some example_hi)
  /\ forall base64 stop_raises,
       map shown
           (messages
              (world_of
                 (run [ handleMessage base64 stop_raises (user_fragment "hi");
                        handleMessage base64 stop_raises (agent_fragment "hey") ]
                      newWorld)))
       = [ (user, "hi"%string, false); (model, "hey"%string, false) ].
Proof.
  apply (role_switch_appends_and_leaves_open
           [example_hi] example_hi "hey" false 9).
  - reflexivity.
  - reflexivity.
  - discriminate.
Defined.

(** The claim of C4 fails on its own example: after user "hi" and agent
    "hey" the user record is not complete. *)
Lemma role_switch_does_not_seal :
  map shown
      (messages
         (world_of
            (run [ handleMessage example_base64 never_raises (user_fragment "hi");
                   handleMessage example_base64 never_raises (agent_fragment "hey") ]
                 newWorld)))
    = [ (user, "hi"%string, false); (model, "hey"%string, false) ]
  /\ map shown
         (messages
            (world_of
               (run [ handleMessage example_base64 never_raises (user_fragment "hi");
                      handleMessage example_base64 never_raises (agent_fragment "hey") ]
                    newWorld)))
    <> [ (user, "hi"%string, true); (model, "hey"%string, false) ].
Proof.
  split; [reflexivity | discriminate].
Qed.

(** ** The interruption loop *)

Section Router.

Variable base64ToUint8Array : string -> option (list nat).
Variable stop_raises : nat -> bool.

(** Each [stop()] is tried, whether or not an earlier one raised. *)
Lemma forEach_stop (l : list nat) (w : World) :
  forEach (fun s => try_catch (source_stop stop_raises s) (fun _ => ret tt)) l w
  = Ret tt (add_trace (map SourceStop l) w).
Proof.
  revert w. induction l as [|s l IH]; intro w; simpl.
  - now rewrite add_trace_nil.
  - unfold bind at 1. unfold try_catch, source_stop, bind at 1.
    rewrite emit_eq.
    destruct (stop_raises s); simpl; rewrite IH, add_trace_app; reflexivity.
Qed.

End Router.

(** ** The scheduling rule *)

(** The test-and-assign of [schedule] is a maximum. *)
Lemma catch_up_is_Qmax (t now : Q) : (if Qltb t now then now else t) = Qmax t now.
Proof.
  unfold Qmax, GenericMinMax.gmax, Qcompare, Qltb, Z.ltb.
  destruct (_ ?= _)%Z; reflexivity.
Qed.

Lemma timeline_length (cs : list (Q * AudioBuffer)) (t : Q) :
  List.length (timeline t cs) = List.length cs.
Proof.
  revert t. induction cs as [|[now b] cs IH]; intro t; simpl; [|rewrite IH]; reflexivity.
Qed.

(** Two chunks in a row: the later one starts at the end of the earlier
    one, or at the clock reading if that is later. *)
Lemma timeline_next (cs : list (Q * AudioBuffer)) :
  forall (t : Q) (k : nat) (s now now' : Q) (b b' : AudioBuffer),
    nth_error (timeline t cs) k = Some s ->
    nth_error cs k = Some (now, b) ->
    nth_error cs (S k) = Some (now', b') ->
    nth_error (timeline t cs) (S k) = Some (Qmax (s + duration b) now').
Proof.
  induction cs as [|[n0 b0] cs IH]; intros t k s now now' b b' Hs Hk Hk'.
  - destruct k; discriminate.
  - destruct k as [|k]; simpl in *.
    + injection Hs as <-. injection Hk as -> ->.
      destruct cs as [|[n1 b1] cs]; [discriminate|].
      simpl in *. injection Hk' as -> ->. reflexivity.
    + eapply IH; eassumption.
Qed.

Lemma timeline_end_last (cs : list (Q * AudioBuffer)) :
  forall (t s now : Q) (b : AudioBuffer),
    nth_error (timeline t cs) (List.length cs - 1) = Some s ->
    nth_error cs (List.length cs - 1) = Some (now, b) ->
    timeline_end t cs = s + duration b.
Proof.
  induction cs as [|[n0 b0] cs IH]; intros t s now b Hs Hb.
  - discriminate.
  - destruct cs as [|c1 cs].
    + simpl in *. injection Hs as <-. injection Hb as -> ->. reflexivity.
    + change (timeline_end t ((n0, b0) :: c1 :: cs))
        with (timeline_end (Qmax t n0 + duration b0) (c1 :: cs)).
      apply IH with (now := now).
      * simpl in Hs |- *. now rewrite Nat.sub_0_r in *.
      * simpl in Hb |- *. now rewrite Nat.sub_0_r in *.
Qed.

Lemma kept_all (cs : list (Q * AudioBuffer)) :
  kept (map (fun c => (fst c, Some (snd c))) cs) = cs.
Proof.
  induction cs as [|[now b] cs IH]; simpl; [|rewrite IH]; reflexivity.
Qed.

Section Scheduler.

Variable decodeAudioData : list nat -> option AudioBuffer.

(** A decoded chunk: one new source, started at the maximum of
    [nextStartTime] and the clock reading, and entered in the set. *)
Lemma resume_decoded (w : World) (uint8Array : list nat)
    (rest : list (list nat)) (audioBuffer : AudioBuffer) (ctx : nat)
    (currentTime : Q) :
  pending w = uint8Array :: rest ->
  decodeAudioData uint8Array = Some audioBuffer ->
  outputAudioContext (client w) = Some ctx ->
  playAudioChunk_resume decodeAudioData currentTime w =
    Ret tt
      {| client :=
           set_activeSources
             (Set_add (nextObject w) (activeSources (client w)))
             (set_nextStartTime
                (Qmax (nextStartTime (client w)) currentTime
                 + duration audioBuffer)
                (client w));
         messages := messages w;
         pending := rest;
         dateNow := dateNow w;
         nextObject := S (nextObject w);
         trace := trace w ++
                  [ CreateBufferSource (nextObject w);
                    ConnectNodes (nextObject w) ctx;
                    SourceStart (nextObject w)
                                (Qmax (nextStartTime (client w)) currentTime) ] |}.
Proof.
  intros Hp Hd Hc. destruct w as [c ms pd dn no tr]. simpl in *. subst pd.
  unfold playAudioChunk_resume. simpl.
  unfold bind at 1. simpl. unfold try_catch. rewrite Hd.
  unfold schedule, bind at 1. simpl. rewrite Hc.
  rewrite <- catch_up_is_Qmax.
  destruct c as [ia oa st pr so nst ic sp act]. simpl in *.
  destruct (Qltb nst currentTime); simpl;
    rewrite <- !app_assoc; reflexivity.
Qed.

(** A chunk that fails to decode: a console line, nothing else. *)
Lemma resume_failed (w : World) (uint8Array : list nat)
    (rest : list (list nat)) (currentTime : Q) :
  pending w = uint8Array :: rest ->
  decodeAudioData uint8Array = None ->
  playAudioChunk_resume decodeAudioData currentTime w =
    Ret tt {| client := client w; messages := messages w; pending := rest;
              dateNow := dateNow w; nextObject := nextObject w;
              trace := trace w ++ [ConsoleError] |}.
Proof.
  intros Hp Hd. destruct w as [c ms pd dn no tr]. simpl in *. subst pd.
  unfold playAudioChunk_resume. simpl.
  unfold bind at 1. simpl. unfold try_catch. rewrite Hd. reflexivity.
Qed.

(** The decodes of [chunks] settle in order: the survivors are scheduled
    by the rule, the others leave a console line. *)
Lemma settle_spec (chunks : list (Q * option AudioBuffer)) :
  forall (w : World) (ctx : nat),
    outputAudioContext (client w) = Some ctx ->
    map decodeAudioData (pending w) = map snd chunks ->
    exists w',
      settle decodeAudioData (map fst chunks) w = Ret tt w'
      /\ starts (trace w') =
           starts (trace w) ++ timeline (nextStartTime (client w)) (kept chunks)
      /\ nextStartTime (client w') =
           timeline_end (nextStartTime (client w)) (kept chunks)
      /\ created (trace w') =
           created (trace w) ++ seq (nextObject w) (List.length (kept chunks))
      /\ activeSources (client w') =
           fold_left (fun s x => Set_add x s)
                     (seq (nextObject w) (List.length (kept chunks)))
                     (activeSources (client w))
      /\ surfaced (trace w') = surfaced (trace w)
      /\ messages w' = messages w
      /\ pending w' = [].
Proof.
  induction chunks as [|[now [b|]] chunks IH]; intros w ctx Hc Hp.
  - simpl in *. apply map_eq_nil in Hp. exists w. simpl.
    rewrite !app_nil_r. repeat split; auto.
  - simpl in Hp. destruct (pending w) as [|u rest] eqn:Hq; [discriminate|].
    simpl in Hp. injection Hp as Hd Hrest.
    simpl. unfold bind at 1.
    rewrite (resume_decoded w u rest b ctx now Hq Hd Hc).
    match goal with
    | |- exists w', settle _ _ ?v = _ /\ _ =>
        destruct (IH v ctx) as (w' & Hrun & Hs & Hn & Hcr & Ha & Hsf & Hm & Hpd);
          [ | | exists w'; split; [exact Hrun|] ]
    end.
    + destruct w as [c ms pd dn no tr]; destruct c; exact Hc.
    + exact Hrest.
    + simpl in *. rewrite Hs, Hn, Hcr, Ha, Hsf, Hm, Hpd.
      rewrite !starts_app, !created_app, !surfaced_app. simpl.
      rewrite <- !app_assoc. simpl. rewrite !app_nil_r.
      destruct w as [c ms pd dn no tr]; destruct c; simpl.
      repeat split; reflexivity.
  - simpl in Hp. destruct (pending w) as [|u rest] eqn:Hq; [discriminate|].
    simpl in Hp. injection Hp as Hd Hrest.
    simpl. unfold bind at 1.
    rewrite (resume_failed w u rest now Hq Hd).
    match goal with
    | |- exists w', settle _ _ ?v = _ /\ _ =>
        destruct (IH v ctx) as (w' & Hrun & Hs & Hn & Hcr & Ha & Hsf & Hm & Hpd);
          [ | | exists w'; split; [exact Hrun|] ]
    end.
    + exact Hc.
    + exact Hrest.
    + simpl in *. rewrite Hs, Hn, Hcr, Ha, Hsf, Hm, Hpd.
      rewrite !starts_app, !created_app, !surfaced_app. simpl.
      rewrite !app_nil_r. repeat split; reflexivity.
Qed.

End Scheduler.

Lemma Qmax_left (x y : Q) : y <= x -> Qmax x y = x.
Proof.
  intro H. unfold Qmax, GenericMinMax.gmax.
  destruct (x ?= y) eqn:E; try reflexivity.
  apply Qlt_alt in E. lra.
Qed.

Lemma Qmax_keeps_order (s d now : Q) : 0 <= d -> s <= Qmax (s + d) now.
Proof.
  intro H. apply Qle_trans with (s + d); [lra | apply Q.le_max_l].
Qed.

Lemma timeline_first (t now : Q) (b : AudioBuffer) (cs : list (Q * AudioBuffer)) :
  nth_error cs 0 = Some (now, b) ->
  nth_error (timeline t cs) 0 = Some (Qmax t now).
Proof.
  destruct cs as [|[n0 b0] cs]; [discriminate|].
  simpl. now intros [= -> ->].
Qed.

(** C1, as the code has it: chunks that decode, scheduled one after
    another with no interruption in between. The first starts at the
    maximum of nextStartTime (0 in a new client) and the device clock at
    that moment. Each later chunk starts at the maximum of the previous
    start plus the previous duration and the device clock when it is
    scheduled: at the previous start plus the previous duration when the
    clock has not passed that point, at the clock reading after a stall.
    With durations that are not negative the start times never decrease.
    After each chunk nextStartTime is that chunk's start plus its
    duration. *)
Theorem playAudioChunk_start_times :
  forall (decodeAudioData : list nat -> option AudioBuffer)
         (w : World) (ctx : nat) (chunks : list (Q * AudioBuffer)),
    outputAudioContext (client w) = Some ctx ->
    map decodeAudioData (pending w) = map (fun c => Some (snd c)) chunks ->
    exists (w' : World) (ss : list Q),
      settle decodeAudioData (map fst chunks) w = Ret tt w'
      /\ starts (trace w') = starts (trace w) ++ ss
      /\ List.length ss = List.length chunks
      /\ nextStartTime newClient = 0
      /\ (forall now b,
            nth_error chunks 0 = Some (now, b) ->
            nth_error ss 0 = Some (Qmax (nextStartTime (client w)) now))
      /\ (forall k s now b now' b',
            nth_error ss k = Some s ->
            nth_error chunks k = Some (now, b) ->
            nth_error chunks (S k) = Some (now', b') ->
            nth_error ss (S k) = Some (Qmax (s + duration b) now')
            /\ (now' <= s + duration b ->
                nth_error ss (S k) = Some (s + duration b))
            /\ (s + duration b < now' -> nth_error ss (S k) = Some now')
            /\ (0 <= duration b -> s <= Qmax (s + duration b) now'))
      /\ (forall s now b,
            nth_error ss (List.length chunks - 1) = Some s ->
            nth_error chunks (List.length chunks - 1) = Some (now, b) ->
            nextStartTime (client w') = s + duration b)
      /\ (chunks = [] -> nextStartTime (client w') = nextStartTime (client w)).
Proof.
  intros decodeAudioData w ctx chunks Hc Hp.
  destruct (settle_spec decodeAudioData
              (map (fun c => (fst c, Some (snd c))) chunks) w ctx Hc)
    as (w' & Hrun & Hs & Hn & _).
  { rewrite map_map. exact Hp. }
  rewrite map_map in Hrun. simpl in Hrun. rewrite kept_all in Hs, Hn.
  exists w', (timeline (nextStartTime (client w)) chunks).
  split; [exact Hrun|]. split; [exact Hs|].
  split; [apply timeline_length|]. split; [reflexivity|].
  split; [intros now b; apply timeline_first|].
  split; [|split].
  - intros k s now b now' b' Hk Hck Hck'.
    pose proof (timeline_next chunks _ k s now now' b b' Hk Hck Hck') as E.
    repeat split.
    + exact E.
    + intro Hle. rewrite E. now rewrite Qmax_left.
    + intro Hlt. rewrite E. f_equal.
      unfold Qmax, GenericMinMax.gmax.
      destruct (s + duration b ?= now') eqn:C; [ | reflexivity | ].
      * apply Qeq_alt in C. lra.
      * apply Qgt_alt in C. lra.
    + apply Qmax_keeps_order.
  - intros s now b Hk Hck. rewrite Hn. eapply timeline_end_last; eassumption.
  - intros ->. rewrite Hn. reflexivity.
Qed.

Lemma playAudioChunk_start_times_witness :
  exists (w' : World) (ss : list Q),
    settle example_decode (map fst two_chunks) two_pending = Ret tt w'
    /\ starts (trace w') = starts (trace two_pending) ++ ss
    /\ List.length ss = List.length two_chunks
    /\ nextStartTime newClient = 0
    /\ (forall now b,
          nth_error two_chunks 0 = Some (now, b) ->
          nth_error ss 0 = Some (Qmax (nextStartTime (client two_pending)) now))
    /\ (forall k s now b now' b',
          nth_error ss k = Some s ->
          nth_error two_chunks k = Some (now, b) ->
          nth_error two_chunks (S k) = Some (now', b') ->
          nth_error ss (S k) = Some (Qmax (s + duration b) now')
          /\ (now' <= s + duration b ->
              nth_error ss (S k) = Some (s + duration b))
          /\ (s + duration b < now' -> nth_error ss (S k) = Some now')
          /\ (0 <= duration b -> s <= Qmax (s + duration b) now'))
    /\ (forall s now b,
          nth_error ss (List.length two_chunks - 1) = Some s ->
          nth_error two_chunks (List.length two_chunks - 1) = Some (now, b) ->
          nextStartTime (client w') = s + duration b)
    /\ (two_chunks = [] ->
        nextStartTime (client w') = nextStartTime (client two_pending)).
Proof.
  apply (playAudioChunk_start_times example_decode two_pending 1%nat two_chunks).
  - reflexivity.
  - reflexivity.
Defined.

(** The claim of C1 fails when the second chunk arrives after the first
    has played out: a chunk of 1 s arrives and is scheduled at clock 0, a
    second chunk arrives and is scheduled at clock 5; they start at 0 and
    5, and 5 is not 0 + 1. *)
Lemma second_chunk_after_a_stall :
  starts (trace (world_of
                   (run [ handleMessage example_base64 never_raises (audio_chunk "a");
                          playAudioChunk_resume example_decode 0;
                          handleMessage example_base64 never_raises (audio_chunk "a");
                          playAudioChunk_resume example_decode 5 ]
                        (playing 0 [] []))))
    = [0; 5]
  /\ ~ (5 == 0 + 1).
Proof.
  split; [reflexivity|]. intro H. discriminate H.
Qed.

(** C9, as the code has it: when some chunks of a sequence fail to decode,
    the handler returns normally every time; a failing chunk changes
    nothing in the client (nextStartTime and the active-set stay as they
    were), whether base64 decoding throws or the decode promise is
    rejected, and nothing reaches onError. Only the surviving chunks are
    started and entered in the active-set, and they follow each other as
    if the failed ones had never arrived: each starts at the maximum of
    the previous survivor's start plus its duration and the device clock
    when it is scheduled, so at the previous survivor's start plus its
    duration unless the clock has passed that point. *)
Theorem decode_failure_drops_only_that_chunk :
  forall (base64ToUint8Array : string -> option (list nat))
         (decodeAudioData : list nat -> option AudioBuffer)
         (w : World) (ctx : nat) (chunks : list (Q * option AudioBuffer)),
    outputAudioContext (client w) = Some ctx ->
    map decodeAudioData (pending w) = map snd chunks ->
    exists (w' : World) (ss : list Q),
      settle decodeAudioData (map fst chunks) w = Ret tt w'
      /\ starts (trace w') = starts (trace w) ++ ss
      /\ List.length ss = List.length (kept chunks)
      /\ created (trace w') =
           created (trace w) ++ seq (nextObject w) (List.length (kept chunks))
      /\ activeSources (client w') =
           fold_left (fun s x => Set_add x s)
                     (seq (nextObject w) (List.length (kept chunks)))
                     (activeSources (client w))
      /\ surfaced (trace w') = surfaced (trace w)
      /\ (forall now b,
            nth_error (kept chunks) 0 = Some (now, b) ->
            nth_error ss 0 = Some (Qmax (nextStartTime (client w)) now))
      /\ (forall k s now b now' b',
            nth_error ss k = Some s ->
            nth_error (kept chunks) k = Some (now, b) ->
            nth_error (kept chunks) (S k) = Some (now', b') ->
            nth_error ss (S k) = Some (Qmax (s + duration b) now')
            /\ (now' <= s + duration b ->
                nth_error ss (S k) = Some (s + duration b)))
      /\ (forall s now b,
            nth_error ss (List.length (kept chunks) - 1) = Some s ->
            nth_error (kept chunks) (List.length (kept chunks) - 1)
              = Some (now, b) ->
            nextStartTime (client w') = s + duration b)
      /\ (forall v uint8Array rest now,
            pending v = uint8Array :: rest ->
            decodeAudioData uint8Array = None ->
            exists v',
              playAudioChunk_resume decodeAudioData now v = Ret tt v'
              /\ client v' = client v
              /\ pending v' = rest
              /\ starts (trace v') = starts (trace v)
              /\ surfaced (trace v') = surfaced (trace v))
      /\ (forall v base64Audio,
            base64ToUint8Array base64Audio = None ->
            exists v',
              playAudioChunk base64ToUint8Array base64Audio v = Ret tt v'
              /\ client v' = client v
              /\ pending v' = pending v
              /\ starts (trace v') = starts (trace v)
              /\ surfaced (trace v') = surfaced (trace v)).
Proof.
  intros base64ToUint8Array decodeAudioData w ctx chunks Hc Hp.
  destruct (settle_spec decodeAudioData chunks w ctx Hc Hp)
    as (w' & Hrun & Hs & Hn & Hcr & Ha & Hsf & _).
  exists w', (timeline (nextStartTime (client w)) (kept chunks)).
  split; [exact Hrun|]. split; [exact Hs|].
  split; [apply timeline_length|].
  split; [exact Hcr|]. split; [exact Ha|]. split; [exact Hsf|].
  split; [intros now b; apply timeline_first|].
  split; [|split; [|split]].
  - intros k s now b now' b' Hk Hck Hck'.
    pose proof (timeline_next _ _ k s now now' b b' Hk Hck Hck') as E.
    split; [exact E|]. intro Hle. rewrite E. now rewrite Qmax_left.
  - intros s now b Hk Hck. rewrite Hn. eapply timeline_end_last; eassumption.
  - intros v u rest now Hq Hd.
    rewrite (resume_failed decodeAudioData v u rest now Hq Hd).
    eexists; split; [reflexivity|]. simpl.
    rewrite starts_app, surfaced_app. simpl. rewrite !app_nil_r.
    repeat split; reflexivity.
  - intros v base64Audio Hb. unfold playAudioChunk, bind, this.
    destruct (outputAudioContext (client v)).
    + unfold try_catch. rewrite Hb. simpl.
      eexists; split; [reflexivity|]. simpl.
      rewrite starts_app, surfaced_app. simpl. rewrite !app_nil_r.
      repeat split; reflexivity.
    + exists v. repeat split; reflexivity.
Qed.

Lemma decode_failure_witness :
  exists (w' : World) (ss : list Q),
    settle example_decode (map fst three_chunks) three_pending = Ret tt w'
    /\ starts (trace w') = starts (trace three_pending) ++ ss
    /\ List.length ss = List.length (kept three_chunks)
    /\ created (trace w') =
         created (trace three_pending) ++
         seq (nextObject three_pending) (List.length (kept three_chunks))
    /\ activeSources (client w') =
         fold_left (fun s x => Set_add x s)
                   (seq (nextObject three_pending)
                        (List.length (kept three_chunks)))
                   (activeSources (client three_pending))
    /\ surfaced (trace w') = surfaced (trace three_pending)
    /\ (forall now b,
          nth_error (kept three_chunks) 0 = Some (now, b) ->
          nth_error ss 0 =
            Some (Qmax (nextStartTime (client three_pending)) now))
    /\ (forall k s now b now' b',
          nth_error ss k = Some s ->
          nth_error (kept three_chunks) k = Some (now, b) ->
          nth_error (kept three_chunks) (S k) = Some (now', b') ->
          nth_error ss (S k) = Some (Qmax (s + duration b) now')
          /\ (now' <= s + duration b ->
              nth_error ss (S k) = Some (s + duration b)))
    /\ (forall s now b,
          nth_error ss (List.length (kept three_chunks) - 1) = Some s ->
          nth_error (kept three_chunks) (List.length (kept three_chunks) - 1)
            = Some (now, b) ->
          nextStartTime (client w') = s + duration b)
    /\ (forall v uint8Array rest now,
          pending v = uint8Array :: rest ->
          example_decode uint8Array = None ->
          exists v',
            playAudioChunk_resume example_decode now v = Ret tt v'
            /\ client v' = client v
            /\ pending v' = rest
            /\ starts (trace v') = starts (trace v)
            /\ surfaced (trace v') = surfaced (trace v))
    /\ (forall v base64Audio,
          example_base64 base64Audio = None ->
          exists v',
            playAudioChunk example_base64 base64Audio v = Ret tt v'
            /\ client v' = client v
            /\ pending v' = pending v
            /\ starts (trace v') = starts (trace v)
            /\ surfaced (trace v') = surfaced (trace v)).
Proof.
  apply (decode_failure_drops_only_that_chunk
           example_base64 example_decode three_pending 1%nat three_chunks).
  - reflexivity.
  - reflexivity.
Defined.

(** The claim of C9 fails when a survivor arrives after the one before it
    has played out: the first of three chunks fails to decode, the second
    lasts 1 s and is scheduled at clock 0, the third arrives and is
    scheduled at clock 5; the survivors start at 0 and 5, and 5 is not
    0 + 1. *)
Lemma survivor_after_a_stall :
  starts (trace (world_of
                   (run [ handleMessage example_base64 never_raises (audio_chunk "!");
                          handleMessage example_base64 never_raises (audio_chunk "a");
                          playAudioChunk_resume example_decode 0;
                          handleMessage example_base64 never_raises (audio_chunk "a");
                          playAudioChunk_resume example_decode 5 ]
                        (playing 0 [] []))))
    = [0; 5]
  /\ surfaced (trace (world_of
                   (run [ handleMessage example_base64 never_raises (audio_chunk "!");
                          handleMessage example_base64 never_raises (audio_chunk "a");
                          playAudioChunk_resume example_decode 0;
                          handleMessage example_base64 never_raises (audio_chunk "a");
                          playAudioChunk_resume example_decode 5 ]
                        (playing 0 [] []))))
    = []
  /\ ~ (5 == 0 + 1).
Proof.
  split; [reflexivity|]. split; [reflexivity|]. intro H. discriminate H.
Qed.

(** ** The router *)

Section RouterFacts.

Variable base64ToUint8Array : string -> option (list nat).
Variable stop_raises : nat -> bool.

Ltac split_trace :=
  repeat rewrite ?stops_app, ?starts_app, ?created_app, ?surfaced_app,
    ?routed_app, ?stops_map_SourceStop, ?starts_map_SourceStop,
    ?created_map_SourceStop, ?surfaced_map_SourceStop,
    ?routed_map_SourceStop;
  simpl; rewrite <- ?app_assoc, ?app_nil_r; simpl.

(** What one inbound message does, check by check. *)
Lemma handleMessage_spec (w : World) (sc : ServerContent) :
  let fragments :=
    match outputTranscription sc with
    | Some t => [(t, false, false)]
    | None => match inputTranscription sc with
              | Some t => [(t, true, false)]
              | None => []
              end
    end ++
    (if turnComplete sc then [(EmptyString, false, true)] else []) in
  exists w',
    handleMessage base64ToUint8Array stop_raises
                  {| serverContent := Some sc |} w = Ret tt w'
    /\ routed (trace w') = routed (trace w) ++ fragments
    /\ messages w' =
         fold_left (fun ms f => onMessage (fst (fst f)) (snd (fst f)) (snd f)
                                          (dateNow w) ms)
                   fragments (messages w)
    /\ pending w' =
         pending w ++
         match inlineData sc, outputAudioContext (client w) with
         | Some audioData, Some _ =>
             if truthy audioData
             then match base64ToUint8Array audioData with
                  | Some uint8Array => [uint8Array]
                  | None => []
                  end
             else []
         | _, _ => []
         end
    /\ stops (trace w') =
         stops (trace w) ++
         (if interrupted sc then activeSources (client w) else [])
    /\ activeSources (client w') =
         (if interrupted sc then [] else activeSources (client w))
    /\ nextStartTime (client w') =
         (if interrupted sc then 0 else nextStartTime (client w))
    /\ starts (trace w') = starts (trace w)
    /\ created (trace w') = created (trace w)
    /\ surfaced (trace w') = surfaced (trace w).
Proof.
  destruct sc as [o i tc d x].
  destruct w as [c ms pd dn no tr].
  destruct c as [ia oa st pr so nst ic sp act].
  unfold handleMessage, events_onMessage, playAudioChunk; simpl.
  destruct o as [o|], i as [i|], tc, d as [d|], x; simpl.
  all: try destruct oa as [oa|]; simpl.
  all: try destruct (truthy d); simpl.
  all: try destruct (base64ToUint8Array d); simpl.
  all: unfold bind, this, update, emit, setMessages, setPending, try_catch,
         ret, throw; simpl.
  all: pose proof (forEach_stop stop_raises) as F;
    unfold try_catch, ret in F; rewrite ?F; clear F; simpl.
  all: eexists; split; [reflexivity|]; simpl.
  all: split_trace.
  all: repeat split; reflexivity.
Qed.

(** A message without [serverContent] does nothing. *)
Lemma handleMessage_no_content (w : World) :
  handleMessage base64ToUint8Array stop_raises {| serverContent := None |} w
  = Ret tt w.
Proof.
  destruct w as [c ms pd dn no tr]. reflexivity.
Qed.

End RouterFacts.

(** C2: whatever the state of the scheduler, a message that carries the
    interruption signal has stop() called on every unit of the active-set,
    leaves the active-set empty and nextStartTime at 0, and starts no
    chunk while it is handled; a chunk scheduled next starts from
    nextStartTime 0, that is at the device clock. *)
Theorem interruption_clears_the_schedule :
  forall (base64ToUint8Array : string -> option (list nat))
         (stop_raises : nat -> bool) (w : World) (sc : ServerContent),
    interrupted sc = true ->
    exists w',
      handleMessage base64ToUint8Array stop_raises
                    {| serverContent := Some sc |} w = Ret tt w'
      /\ (forall s, In s (activeSources (client w)) -> In s (stops (trace w')))
      /\ activeSources (client w') = []
      /\ nextStartTime (client w') = 0
      /\ starts (trace w') = starts (trace w)
      /\ created (trace w') = created (trace w)
      /\ (forall decodeAudioData uint8Array rest audioBuffer ctx now,
            pending w' = uint8Array :: rest ->
            decodeAudioData uint8Array = Some audioBuffer ->
            outputAudioContext (client w') = Some ctx ->
            exists v,
              playAudioChunk_resume decodeAudioData now w' = Ret tt v
              /\ starts (trace v) = starts (trace w') ++ [Qmax 0 now]).
Proof.
  intros base64ToUint8Array stop_raises w sc Hx.
  destruct (handleMessage_spec base64ToUint8Array stop_raises w sc)
    as (w' & Hrun & _ & _ & _ & Hst & Ha & Hn & Hs & Hc & _).
  rewrite Hx in Hst, Ha, Hn.
  exists w'. split; [exact Hrun|].
  split; [intros s Hin; rewrite Hst; apply in_or_app; now right|].
  split; [exact Ha|]. split; [exact Hn|]. split; [exact Hs|].
  split; [exact Hc|].
  intros decodeAudioData u rest b ctx now Hq Hd Ho.
  rewrite (resume_decoded decodeAudioData w' u rest b ctx now Hq Hd Ho).
  eexists; split; [reflexivity|]. simpl.
  rewrite starts_app, Hn. reflexivity.
Qed.

Lemma interruption_clears_the_schedule_witness :
  exists w',
    handleMessage example_base64 never_raises
                  {| serverContent := Some interrupted_content |}
                  two_active = Ret tt w'
    /\ (forall s, In s (activeSources (client two_active)) ->
                  In s (stops (trace w')))
    /\ activeSources (client w') = []
    /\ nextStartTime (client w') = 0
    /\ starts (trace w') = starts (trace two_active)
    /\ created (trace w') = created (trace two_active)
    /\ (forall decodeAudioData uint8Array rest audioBuffer ctx now,
          pending w' = uint8Array :: rest ->
          decodeAudioData uint8Array = Some audioBuffer ->
          outputAudioContext (client w') = Some ctx ->
          exists v,
            playAudioChunk_resume decodeAudioData now w' = Ret tt v
            /\ starts (trace v) = starts (trace w') ++ [Qmax 0 now]).
Proof.
  apply (interruption_clears_the_schedule
           example_base64 never_raises two_active interrupted_content).
  reflexivity.
Defined.

(** C10: each stop() of the interruption branch is guarded on its own.
    Whichever units raise on stop(), an unguarded stop() that raises
    would leave the loop, yet the guarded loop returns after calling
    stop() once on every unit of the active-set, in order, and the handler
    returns with the active-set empty and nextStartTime 0. *)
Theorem interruption_survives_raising_stops :
  forall (base64ToUint8Array : string -> option (list nat))
         (stop_raises : nat -> bool) (w : World) (sc : ServerContent),
    interrupted sc = true ->
    (forall s v, stop_raises s = true ->
                 source_stop stop_raises s v =
                   Raise InvalidStateError (add_trace [SourceStop s] v))
    /\ forEach (fun s => try_catch (source_stop stop_raises s) (fun _ => ret tt))
               (activeSources (client w)) w
       = Ret tt (add_trace (map SourceStop (activeSources (client w))) w)
    /\ exists w',
         handleMessage base64ToUint8Array stop_raises
                       {| serverContent := Some sc |} w = Ret tt w'
         /\ stops (trace w') = stops (trace w) ++ activeSources (client w)
         /\ activeSources (client w') = []
         /\ nextStartTime (client w') = 0.
Proof.
  intros base64ToUint8Array stop_raises w sc Hx. split; [|split].
  - intros s v Hs. unfold source_stop, bind. rewrite emit_eq, Hs. reflexivity.
  - apply forEach_stop.
  - destruct (handleMessage_spec base64ToUint8Array stop_raises w sc)
      as (w' & Hrun & _ & _ & _ & Hst & Ha & Hn & _).
    rewrite Hx in Hst, Ha, Hn. exists w'. auto.
Qed.

Lemma interruption_survives_raising_stops_witness :
  (forall s v, raises_on_6 s = true ->
               source_stop raises_on_6 s v =
                 Raise InvalidStateError (add_trace [SourceStop s] v))
  /\ forEach (fun s => try_catch (source_stop raises_on_6 s) (fun _ => ret tt))
             (activeSources (client two_active)) two_active
     = Ret tt (add_trace (map SourceStop (activeSources (client two_active)))
                         two_active)
  /\ exists w',
       handleMessage example_base64 raises_on_6
                     {| serverContent := Some interrupted_content |}
                     two_active = Ret tt w'
       /\ stops (trace w') =
            stops (trace two_active) ++ activeSources (client two_active)
       /\ activeSources (client w') = []
       /\ nextStartTime (client w') = 0.
Proof.
  apply (interruption_survives_raising_stops
           example_base64 raises_on_6 two_active interrupted_content).
  reflexivity.
Defined.

(** C5, as the code has it: the two transcription checks exclude each
    other, output first: an output transcription is routed as an agent
    fragment, an input transcription is routed as a user fragment only
    when the message has no output transcription. The turn-complete, audio
    and interruption checks are each applied whatever the others found:
    turn-complete routes the completion signal, a non-empty audio payload
    is handed to the decoder when an output context exists, and the
    interruption signal stops and clears the active-set and resets
    nextStartTime. *)
Theorem handleMessage_checks :
  forall (base64ToUint8Array : string -> option (list nat))
         (stop_raises : nat -> bool) (w : World) (sc : ServerContent),
    exists w',
      handleMessage base64ToUint8Array stop_raises
                    {| serverContent := Some sc |} w = Ret tt w'
      /\ routed (trace w') =
           routed (trace w) ++
           match outputTranscription sc with
           | Some t => [(t, false, false)]
           | None => match inputTranscription sc with
                     | Some t => [(t, true, false)]
                     | None => []
                     end
           end ++
           (if turnComplete sc then [(EmptyString, false, true)] else [])
      /\ pending w' =
           pending w ++
           match inlineData sc, outputAudioContext (client w) with
           | Some audioData, Some _ =>
               if truthy audioData
               then match base64ToUint8Array audioData with
                    | Some uint8Array => [uint8Array]
                    | None => []
                    end
               else []
           | _, _ => []
           end
      /\ stops (trace w') =
           stops (trace w) ++
           (if interrupted sc then activeSources (client w) else [])
      /\ activeSources (client w') =
           (if interrupted sc then [] else activeSources (client w))
      /\ nextStartTime (client w') =
           (if interrupted sc then 0 else nextStartTime (client w)).
Proof.
  intros base64ToUint8Array stop_raises w sc.
  destruct (handleMessage_spec base64ToUint8Array stop_raises w sc)
    as (w' & Hrun & Hr & _ & Hp & Hst & Ha & Hn & _).
  exists w'. auto 10.
Qed.

(** The claim of C5 fails on a message that carries both transcriptions:
    only the agent fragment is routed. *)
Lemma both_transcriptions_route_one_fragment :
  routed (trace (world_of (handleMessage example_base64 never_raises
                                         (both_fragments "a" "b") newWorld)))
    = [ ("a"%string, false, false) ]
  /\ ~ In ("b"%string, true, false)
          (routed (trace (world_of (handleMessage example_base64 never_raises
                                                  (both_fragments "a" "b")
                                                  newWorld)))).
Proof.
  split; [reflexivity|]. simpl. intros [H|[]]. discriminate H.
Qed.

(** C3, on the code: after the user fragments "he" and "llo", the
    turn-complete signal is routed as an agent signal; it does not seal
    the open user record but opens an empty, complete agent record, and
    the agent fragment "hi" opens a third record. After an agent fragment
    the same signal does seal the open record. *)
Theorem turn_complete_after_user_fragments :
  forall (base64ToUint8Array : string -> option (list nat))
         (stop_raises : nat -> bool),
    map shown
        (messages
           (world_of
              (run [ handleMessage base64ToUint8Array stop_raises (user_fragment "he");
                     handleMessage base64ToUint8Array stop_raises (user_fragment "llo");
                     handleMessage base64ToUint8Array stop_raises turn_complete;
                     handleMessage base64ToUint8Array stop_raises (agent_fragment "hi") ]
                   newWorld)))
    = [ (user, "hello"%string, false);
        (model, EmptyString, true);
        (model, "hi"%string, false) ]
    /\ map shown
           (messages
              (world_of
                 (run [ handleMessage base64ToUint8Array stop_raises (agent_fragment "hi");
                        handleMessage base64ToUint8Array stop_raises turn_complete ]
                      newWorld)))
       = [ (model, "hi"%string, true) ].
Proof.
  intros base64ToUint8Array stop_raises. split; reflexivity.
Qed.

(** ** The life cycle *)

(** [cleanup] gives back every handle the client holds, in a fixed order,
    and never raises. *)
Lemma cleanup_eq (w : World) :
  cleanup w =
    Ret tt
      {| client :=
           {| inputAudioContext := None; outputAudioContext := None;
              mediaStream := None; processor := None; source := None;
              nextStartTime := 0; isConnected := false;
              sessionPromise := sessionPromise (client w);
              activeSources := [] |};
         messages := messages w; pending := pending w; dateNow := dateNow w;
         nextObject := nextObject w;
         trace := trace w ++ releases (client w) |}.
Proof.
  destruct w as [c ms pd dn no tr].
  destruct c as [[ia|] [oa|] [st|] [pr|] [so|] nst ic sp act];
    unfold releases, cleanup, bind, this, update, emit, ret; simpl;
    rewrite <- ?app_assoc, ?app_nil_r; reflexivity.
Qed.

Lemma released_after_cleanup (sp : option nat) :
  released
    {| inputAudioContext := None; outputAudioContext := None;
       mediaStream := None; processor := None; source := None;
       nextStartTime := 0; isConnected := false;
       sessionPromise := sp; activeSources := [] |}.
Proof. repeat split. Qed.

(** The session of the examples is the one a client is in after connect,
    a granted microphone, an opened transport and onopen. *)
Lemma playing_is_reached :
  client (world_of (run [ connect example_config;
                          connect_resume example_config true false;
                          onopen ] newWorld))
  = set_isConnected true (client (playing 0 [] []))
  /\ nextObject (world_of (run [ connect example_config;
                                 connect_resume example_config true false;
                                 onopen ] newWorld))
     = nextObject (playing 0 [] []).
Proof. split; reflexivity. Qed.

(** While the session is open, [connect] does nothing. *)
Lemma connect_when_open (config : LiveConfig) (w : World) :
  isConnected (client w) = true -> connect config w = Ret tt w.
Proof.
  intro H. unfold connect, bind, this. now rewrite H.
Qed.

(** C7, as the code has it: from every state disconnect returns without
    raising; afterwards isConnected is false, no device handle is held,
    the active-set is empty and nextStartTime is 0; on the way the tracks
    of the media stream were stopped, the processor and the source
    disconnected and the two audio contexts closed, for each of them that
    was held. The transport is not released when disconnect returns: the
    close of the session is only queued on the session promise, and the
    client keeps that promise. The same holds for a second disconnect
    right after the first, which finds no device handle left to release
    and queues the close again, and a disconnect before any connect
    changes nothing. *)
Theorem disconnect_never_raises :
  forall (w : World),
    exists w',
      disconnect w = Ret tt w'
      /\ released (client w')
      /\ sessionPromise (client w') = sessionPromise (client w)
      /\ trace w' =
           trace w ++ releases (client w) ++
           handle SessionCloseQueued (sessionPromise (client w))
      /\ (exists w'',
            disconnect w' = Ret tt w''
            /\ released (client w'')
            /\ sessionPromise (client w'') = sessionPromise (client w)
            /\ trace w'' =
                 trace w' ++ handle SessionCloseQueued (sessionPromise (client w)))
      /\ disconnect newWorld = Ret tt newWorld.
Proof.
  intro w. unfold disconnect. unfold bind at 1. rewrite cleanup_eq.
  destruct w as [c ms pd dn no tr].
  destruct c as [ia oa st pr so nst ic sp act]. simpl.
  destruct sp as [p|]; simpl.
  - eexists; split; [reflexivity|]. simpl.
    split; [apply released_after_cleanup|].
    split; [reflexivity|].
    split; [now rewrite <- !app_assoc|].
    split; [|reflexivity].
    unfold bind at 1. rewrite cleanup_eq. simpl.
    eexists; split; [reflexivity|]. simpl.
    split; [apply released_after_cleanup|].
    split; [reflexivity|].
    unfold releases; simpl. now rewrite app_nil_r.
  - eexists; split; [reflexivity|]. simpl.
    split; [apply released_after_cleanup|].
    split; [reflexivity|].
    split; [now rewrite !app_nil_r|].
    split; [|reflexivity].
    unfold bind at 1. rewrite cleanup_eq. simpl.
    eexists; split; [reflexivity|]. simpl.
    split; [apply released_after_cleanup|].
    split; [reflexivity|].
    unfold releases; simpl. now rewrite !app_nil_r.
Qed.

(** The claim of C7 fails for the transport: a disconnect made while the
    session is still being opened gives back the stream and both contexts
    but does not close the session; it queues the close on the session
    promise and keeps that promise, and when the transport then opens,
    onopen marks the client connected again. *)
Lemma disconnect_only_queues_the_session_close :
  trace (world_of (disconnect connecting))
    = trace connecting ++
      [ TracksStop 2; ContextClose 0; ContextClose 1; SessionCloseQueued 3 ]
  /\ sessionPromise (client (world_of (disconnect connecting))) = Some 3%nat
  /\ sessionPromise (client (world_of (disconnect connecting))) <> None
  /\ isConnected (client (world_of (run [disconnect; onopen] connecting)))
     = true
  /\ isConnected (client (world_of (run [disconnect; onopen] connecting)))
     <> false.
Proof.
  vm_compute. repeat split; try reflexivity; discriminate.
Qed.

(** C8, as the code has it: when connect fails, because the microphone is
    refused, because ai.live.connect throws, or because the transport
    reports an error through onerror, the handler returns normally, the
    error is passed to onError first, and then every handle acquired so far
    is given back, so that once the handler has returned no handle is held
    and isConnected is false. *)
Theorem failed_connect_leaves_nothing_behind :
  forall (config : LiveConfig) (w : World),
    (forall transport_throws,
       exists w',
         connect_resume config false transport_throws w = Ret tt w'
         /\ released (client w')
         /\ trace w' =
              trace w ++ [ConsoleError; OnError NotAllowedError] ++
              releases (client w))
    /\ (exists w',
          connect_resume config true true w = Ret tt w'
          /\ released (client w')
          /\ trace w' =
               trace w ++ [ConsoleError; OnError TransportError] ++
               releases (set_mediaStream (Some (nextObject w)) (client w)))
    /\ (exists w',
          onerror w = Ret tt w'
          /\ released (client w')
          /\ trace w' =
               trace w ++ [ConsoleError; OnError TransportError] ++
               releases (client w)).
Proof.
  intros config w. split; [|split].
  - intro transport_throws.
    unfold connect_resume, try_catch, throw, connect_catch.
    unfold bind at 1. rewrite emit_eq. unfold bind at 1. rewrite emit_eq.
    rewrite cleanup_eq. eexists; split; [reflexivity|]. simpl.
    split; [apply released_after_cleanup|]. now rewrite <- !app_assoc.
  - unfold connect_resume, try_catch, throw, connect_catch.
    unfold bind at 1. simpl.
    unfold bind at 1. rewrite emit_eq. unfold bind at 1. rewrite emit_eq.
    rewrite cleanup_eq. eexists; split; [reflexivity|]. simpl.
    split; [apply released_after_cleanup|]. now rewrite <- !app_assoc.
  - unfold onerror.
    unfold bind at 1. rewrite emit_eq. unfold bind at 1. rewrite emit_eq.
    rewrite cleanup_eq. eexists; split; [reflexivity|]. simpl.
    split; [apply released_after_cleanup|]. now rewrite <- !app_assoc.
Qed.

(** The claim of C8 fails in its order: when the microphone is refused,
    onError is called while both audio contexts are still open; they are
    closed after it. *)
Lemma error_is_surfaced_before_release :
  trace (world_of (run [ connect example_config;
                         connect_resume example_config false false ]
                       newWorld))
    = [ NewAudioContext 0 16000; NewAudioContext 1 24000; GetUserMedia;
        ConsoleError; OnError NotAllowedError;
        ContextClose 0; ContextClose 1 ]
  /\ ~ In (ContextClose 0)
          (until_error
             (trace (world_of (run [ connect example_config;
                                     connect_resume example_config false false ]
                                   newWorld)))).
Proof.
  split; [reflexivity|]. simpl. intuition discriminate.
Qed.

(** C6, on the code: a second connect made while the first is still
    connecting (the transport is requested, onopen has not been called, so
    isConnected is still false) is not a no-op. It builds two more audio
    contexts, asks for the microphone again and opens a second transport;
    the handles of the first attempt are overwritten and never given
    back. *)
Theorem connect_while_connecting_opens_a_second_transport :
  isConnected (client connecting) = false
  /\ transports (trace connecting) = [3%nat]
  /\ contexts (trace connecting) = [0%nat; 1%nat]
  /\ transports (trace connecting_again) = [3%nat; 7%nat]
  /\ contexts (trace connecting_again) = [0%nat; 1%nat; 4%nat; 5%nat]
  /\ inputAudioContext (client connecting_again) = Some 4%nat
  /\ outputAudioContext (client connecting_again) = Some 5%nat
  /\ mediaStream (client connecting_again) = Some 6%nat
  /\ ~ In (ContextClose 0) (trace connecting_again)
  /\ ~ In (ContextClose 1) (trace connecting_again)
  /\ ~ In (TracksStop 2) (trace connecting_again).
Proof.
  vm_compute. repeat split; try reflexivity; intuition discriminate.
Qed.

(** * More of the code *)

(** ** The transcript, call after call *)

Lemma append_nil_r (s : string) : String.append s EmptyString = s.
Proof. induction s as [|a s IH]; simpl; [|rewrite IH]; reflexivity. Qed.

Lemma append_assoc (a b c : string) :
  String.append (String.append a b) c = String.append a (String.append b c).
Proof. induction a as [|x a IH]; simpl; [|rewrite IH]; reflexivity. Qed.

Lemma lastMsg_split (prev : list Message) (m : Message) :
  lastMsg prev = Some m -> prev = removelast prev ++ [m].
Proof.
  destruct prev as [|x l] using rev_ind; [discriminate|].
  rewrite lastMsg_snoc. intros [= ->]. now rewrite removelast_last.
Qed.

(** The two ways [onMessage] can go. *)
Lemma onMessage_cases (fragment : string) (isUser complete : bool)
    (now : Z) (prev : list Message) :
  (exists p m,
      prev = p ++ [m]
      /\ role m = (if isUser then user else model)
      /\ isComplete m = false
      /\ onMessage fragment isUser complete now prev =
           p ++ [ {| id := id m; role := role m;
                     text := String.append (text m) fragment;
                     isComplete := complete; timestamp := timestamp m |} ])
  \/ ((forall m, lastMsg prev = Some m ->
                 isComplete m = true \/ role m <> (if isUser then user else model))
      /\ onMessage fragment isUser complete now prev =
           prev ++ [ {| id := now; role := if isUser then user else model;
                        text := fragment; isComplete := complete;
                        timestamp := now |} ]).
Proof.
  destruct (lastMsg prev) as [m|] eqn:Hl.
  - destruct (isComplete m) eqn:Hc.
    + right. split.
      * intros m' Hm'; try rewrite Hl in Hm'; injection Hm' as <-. now left.
      * apply onMessage_new_record. intros m' Hm'; try rewrite Hl in Hm'; injection Hm' as <-. now left.
    + destruct (Role_eqb (role m) (if isUser then user else model)) eqn:Hr.
      * left. exists (removelast prev), m.
        assert (R : role m = (if isUser then user else model))
          by (destruct (role m), isUser; simpl in Hr; congruence).
        split; [now apply lastMsg_split|]. split; [exact R|].
        split; [exact Hc|]. now apply onMessage_same_role.
      * right.
        assert (R : role m <> (if isUser then user else model))
          by (destruct (role m), isUser; simpl in Hr; congruence).
        split.
        -- intros m' Hm'; try rewrite Hl in Hm'; injection Hm' as <-. now right.
        -- apply onMessage_new_record. intros m' Hm'; try rewrite Hl in Hm'; injection Hm' as <-. now right.
  - right. split; [discriminate|].
    apply onMessage_new_record. intros m Hm. rewrite Hl in Hm. discriminate.
Qed.

(** X1: a record that is complete is never changed by a later call of
    onMessage, whatever the fragment, the role and the completion flag. *)
Theorem complete_records_are_never_changed :
  forall (prev : list Message) (i : nat) (m : Message)
         (fragment : string) (isUser complete : bool) (now : Z),
    nth_error prev i = Some m ->
    isComplete m = true ->
    nth_error (onMessage fragment isUser complete now prev) i = Some m.
Proof.
  intros prev i m fragment isUser complete now Hi Hc.
  assert (Hlt : (i < List.length prev)%nat)
    by (apply nth_error_Some; congruence).
  destruct (onMessage_cases fragment isUser complete now prev)
    as [(p & l & -> & _ & Hl & ->) | (_ & ->)].
  - rewrite length_app in Hlt. simpl in Hlt.
    destruct (Nat.eq_dec i (List.length p)) as [-> | Hne].
    + rewrite nth_error_app2, Nat.sub_diag in Hi by lia.
      simpl in Hi. injection Hi as <-. congruence.
    + rewrite nth_error_app1 in Hi |- * by lia. exact Hi.
  - rewrite nth_error_app1 by lia. exact Hi.
Qed.

Lemma complete_records_witness :
  nth_error (onMessage "more" true false 9 [example_sealed; example_hi]) 0
  = Some example_sealed.
Proof.
  apply (complete_records_are_never_changed
           [example_sealed; example_hi] 0 example_sealed "more" true false 9).
  - reflexivity.
  - reflexivity.
Defined.

(** X2: a call of onMessage keeps every record in its place with its id,
    role and timestamp; the text of a record only grows at its end, a
    complete record stays complete, and the transcript grows by at most
    one record. *)
Theorem records_keep_their_role_and_grow :
  forall (prev : list Message) (fragment : string)
         (isUser complete : bool) (now : Z),
    (List.length prev <= List.length (onMessage fragment isUser complete now prev)
       <= S (List.length prev))%nat
    /\ forall (i : nat) (m : Message),
         nth_error prev i = Some m ->
         exists m',
           nth_error (onMessage fragment isUser complete now prev) i = Some m'
           /\ id m' = id m /\ role m' = role m /\ timestamp m' = timestamp m
           /\ (exists suffix, text m' = String.append (text m) suffix)
           /\ (isComplete m = true -> isComplete m' = true).
Proof.
  intros prev fragment isUser complete now.
  destruct (onMessage_cases fragment isUser complete now prev)
    as [(p & l & -> & _ & Hl & ->) | (_ & ->)].
  - split; [rewrite !length_app; simpl; lia|].
    intros i m Hi.
    assert (Hlt : (i < List.length (p ++ [l]))%nat)
      by (apply nth_error_Some; congruence).
    rewrite length_app in Hlt. simpl in Hlt.
    destruct (Nat.eq_dec i (List.length p)) as [-> | Hne].
    + rewrite nth_error_app2, Nat.sub_diag in Hi by lia.
      simpl in Hi. injection Hi as <-.
      rewrite nth_error_app2, Nat.sub_diag by lia. simpl.
      eexists; split; [reflexivity|]. simpl.
      repeat split; try reflexivity.
      * now exists fragment.
      * congruence.
    + rewrite nth_error_app1 in Hi |- * by lia.
      exists m. repeat split; auto.
      exists EmptyString. now rewrite append_nil_r.
  - split; [rewrite length_app; simpl; lia|].
    intros i m Hi.
    assert (Hlt : (i < List.length prev)%nat)
      by (apply nth_error_Some; congruence).
    rewrite nth_error_app1 by lia.
    exists m. repeat split; auto.
    exists EmptyString. now rewrite append_nil_r.
Qed.

(** X3: after every call of onMessage the last record has the role of the
    call, carries its completion flag and ends with its fragment: a user
    fragment never lands in an agent record, nor the other way round. *)
Theorem fragment_lands_in_a_record_of_its_role :
  forall (prev : list Message) (fragment : string)
         (isUser complete : bool) (now : Z),
    exists m',
      lastMsg (onMessage fragment isUser complete now prev) = Some m'
      /\ role m' = (if isUser then user else model)
      /\ isComplete m' = complete
      /\ exists before, text m' = String.append before fragment.
Proof.
  intros prev fragment isUser complete now.
  destruct (onMessage_cases fragment isUser complete now prev)
    as [(p & l & -> & Hr & Hl & ->) | (_ & ->)];
    rewrite lastMsg_snoc; eexists; split; try reflexivity; simpl.
  - repeat split; auto. now exists (text l).
  - repeat split; auto. now exists EmptyString.
Qed.

(** X5: when the last record is an open record of the agent, the
    turn-complete signal marks that record complete and changes nothing
    else: no record is added and its text stays as it was. *)
Theorem turn_complete_seals_the_open_agent_record :
  forall (base64ToUint8Array : string -> option (list nat))
         (stop_raises : nat -> bool) (w : World) (m : Message),
    lastMsg (messages w) = Some m ->
    role m = model ->
    isComplete m = false ->
    messages (world_of (handleMessage base64ToUint8Array stop_raises
                                      turn_complete w))
    = removelast (messages w) ++
        [ {| id := id m; role := model; text := text m; isComplete := true;
             timestamp := timestamp m |} ].
Proof.
  intros base64ToUint8Array stop_raises w m Hl Hr Hc.
  destruct (handleMessage_spec base64ToUint8Array stop_raises w
              {| outputTranscription := None; inputTranscription := None;
                 turnComplete := true; inlineData := None;
                 interrupted := false |})
    as (w' & Hrun & _ & Hm & _).
  unfold turn_complete. rewrite Hrun. simpl in *. rewrite Hm.
  rewrite (onMessage_same_role (messages w) m EmptyString false true
             (dateNow w) Hl Hc Hr).
  now rewrite append_nil_r, Hr.
Qed.

Lemma turn_complete_seals_witness :
  messages (world_of (handleMessage example_base64 never_raises turn_complete
                                    (with_messages [example_hi; example_hey]
                                                   newWorld)))
  = removelast (messages (with_messages [example_hi; example_hey] newWorld)) ++
      [ {| id := id example_hey; role := model; text := text example_hey;
           isComplete := true; timestamp := timestamp example_hey |} ].
Proof.
  apply (turn_complete_seals_the_open_agent_record
           example_base64 never_raises
           (with_messages [example_hi; example_hey] newWorld) example_hey).
  - reflexivity.
  - reflexivity.
  - reflexivity.
Defined.

(** X6: when there is no open record of the agent at the end of the
    transcript (the transcript is empty, or its last record is complete,
    or it is a record of the user), the turn-complete signal leaves every
    record as it was and adds an empty, complete agent record. *)
Theorem turn_complete_without_open_agent_record :
  forall (base64ToUint8Array : string -> option (list nat))
         (stop_raises : nat -> bool) (w : World),
    (forall m, lastMsg (messages w) = Some m ->
               isComplete m = true \/ role m = user) ->
    messages (world_of (handleMessage base64ToUint8Array stop_raises
                                      turn_complete w))
    = messages w ++
        [ {| id := dateNow w; role := model; text := EmptyString;
             isComplete := true; timestamp := dateNow w |} ].
Proof.
  intros base64ToUint8Array stop_raises w H.
  destruct (handleMessage_spec base64ToUint8Array stop_raises w
              {| outputTranscription := None; inputTranscription := None;
                 turnComplete := true; inlineData := None;
                 interrupted := false |})
    as (w' & Hrun & _ & Hm & _).
  unfold turn_complete. rewrite Hrun. simpl in *. rewrite Hm.
  apply (onMessage_new_record (messages w) EmptyString false true (dateNow w)).
  intros m Hl. destruct (H m Hl) as [Hc | Hr]; [now left|].
  right. rewrite Hr. discriminate.
Qed.

Lemma turn_complete_without_open_agent_record_witness :
  messages (world_of (handleMessage example_base64 never_raises turn_complete
                                    (with_messages [example_hi] newWorld)))
  = messages (with_messages [example_hi] newWorld) ++
      [ {| id := dateNow (with_messages [example_hi] newWorld); role := model;
           text := EmptyString; isComplete := true;
           timestamp := dateNow (with_messages [example_hi] newWorld) |} ].
Proof.
  apply (turn_complete_without_open_agent_record
           example_base64 never_raises (with_messages [example_hi] newWorld)).
  intros m H. injection H as <-. right. reflexivity.
Defined.

(** ** The transcript handed to the grader *)

Lemma concat_snoc (sep x : string) (l : list string) :
  String.concat sep (l ++ [x]) =
    match l with
    | [] => x
    | _ => String.append (String.concat sep l) (String.append sep x)
    end.
Proof.
  induction l as [|a l IH]; [reflexivity|].
  destruct l as [|b l]; [reflexivity|].
  change (String.concat sep ((a :: b :: l) ++ [x]))
    with (String.append a (String.append sep (String.concat sep ((b :: l) ++ [x])))).
  rewrite IH.
  change (String.concat sep (a :: b :: l))
    with (String.append a (String.append sep (String.concat sep (b :: l)))).
  now rewrite !append_assoc.
Qed.

(** X7: the transcript text that generateReport builds only ever grows at
    its end as fragments arrive: after a call of onMessage it is the text
    before the call followed by a suffix that ends with the fragment. *)
Theorem transcriptText_grows_at_its_end :
  forall (prev : list Message) (fragment : string)
         (isUser complete : bool) (now : Z),
    exists suffix before,
      transcriptText (onMessage fragment isUser complete now prev)
      = String.append (transcriptText prev) suffix
      /\ suffix = String.append before fragment.
Proof.
  intros prev fragment isUser complete now. unfold transcriptText.
  assert (E : forall r t,
             String.append r (String.append ": " (String.append t fragment))
             = String.append (String.append r (String.append ": " t)) fragment)
    by (intros; now rewrite !append_assoc).
  destruct (onMessage_cases fragment isUser complete now prev)
    as [(p & l & -> & _ & _ & ->) | (_ & ->)];
    rewrite !map_app; cbn [map role text].
  - exists fragment, EmptyString. split; [|reflexivity].
    rewrite !concat_snoc, E.
    destruct (map _ p); [reflexivity|]. now rewrite !append_assoc.
  - rewrite concat_snoc. destruct prev as [|m prev]; cbn [map].
    + exists (String.append (role_toUpperCase (if isUser then user else model))
                            (String.append ": " fragment)),
             (String.append (role_toUpperCase (if isUser then user else model))
                            ": ").
      split; [reflexivity|]. now rewrite append_assoc.
    + exists (String.append newline
                (String.append (role_toUpperCase (if isUser then user else model))
                               (String.append ": " fragment))),
             (String.append newline
                (String.append (role_toUpperCase (if isUser then user else model))
                               ": ")).
      split; [reflexivity|]. now rewrite !append_assoc.
Qed.

(** ** One handler at a time *)

Section HandlerFacts.

Variable base64ToUint8Array : string -> option (list nat).
Variable decodeAudioData : list nat -> option AudioBuffer.
Variable stop_raises : nat -> bool.

(** What an inbound message does to the fields of the client and to the
    trace. *)
Lemma handleMessage_client (w : World) (message : LiveServerMessage) :
  exists w' new,
    handleMessage base64ToUint8Array stop_raises message w = Ret tt w'
    /\ trace w' = trace w ++ new
    /\ starts new = []
    /\ client w' =
         match serverContent message with
         | Some sc =>
             if interrupted sc
             then set_nextStartTime 0 (set_activeSources [] (client w))
             else client w
         | None => client w
         end.
Proof.
  destruct message as [[sc|]].
  2:{ rewrite handleMessage_no_content. exists w, [].
      now rewrite app_nil_r. }
  destruct sc as [o i tc d x].
  destruct w as [c ms pd dn no tr].
  destruct c as [ia oa st pr so nst ic sp act].
  unfold handleMessage, events_onMessage, playAudioChunk; simpl.
  destruct o as [o|], i as [i|], tc, d as [d|], x; simpl.
  all: try destruct oa as [oa|]; simpl.
  all: try destruct (truthy d); simpl.
  all: try destruct (base64ToUint8Array d); simpl.
  all: unfold bind, this, update, emit, setMessages, setPending, try_catch,
         ret, throw; simpl.
  all: pose proof (forEach_stop stop_raises) as F;
    unfold try_catch, ret in F; rewrite ?F; clear F; simpl.
  all: rewrite <- ?app_assoc; simpl.
  all: eexists; eexists; split; [reflexivity|]; simpl.
  all: first [ split; [reflexivity|]
             | split; [rewrite <- (app_nil_r tr) at 1; reflexivity|] ].
  all: unfold starts; simpl; fold starts;
    rewrite ?starts_app, ?starts_map_SourceStop; simpl; split; reflexivity.
Qed.

End HandlerFacts.

Section HandlerEffects.

Variable base64ToUint8Array : string -> option (list nat).
Variable decodeAudioData : list nat -> option AudioBuffer.
Variable stop_raises : nat -> bool.

(** A decode that settles when the output context is gone: the call on
    the null context raises, the [catch] logs it. *)
Lemma resume_without_context (w : World) (uint8Array : list nat)
    (rest : list (list nat)) (currentTime : Q) :
  pending w = uint8Array :: rest ->
  outputAudioContext (client w) = None ->
  playAudioChunk_resume decodeAudioData currentTime w =
    Ret tt {| client := client w; messages := messages w; pending := rest;
              dateNow := dateNow w; nextObject := nextObject w;
              trace := trace w ++ [ConsoleError] |}.
Proof.
  intros Hp Hc. destruct w as [c ms pd dn no tr]. simpl in *. subst pd.
  unfold playAudioChunk_resume. simpl.
  unfold bind at 1. simpl. unfold try_catch.
  destruct (decodeAudioData uint8Array); [|reflexivity].
  unfold schedule, bind at 1. simpl. rewrite Hc. reflexivity.
Qed.

(** Every handler returns, extends the trace, and changes the client in
    one of the ways of [Change]; it starts at most one source, at the
    maximum of nextStartTime and the clock. *)
Ltac no_starts :=
  unfold releases, handle; simpl;
  repeat match goal with
         | |- context [match ?x with Some _ => _ | None => _ end] => destruct x
         end;
  simpl; intros t [].

Lemma handler_effect (e : Event) (w : World) :
  exists w' new,
    handler base64ToUint8Array decodeAudioData stop_raises e w = Ret tt w'
    /\ trace w' = trace w ++ new
    /\ Change decodeAudioData w new (client w')
    /\ (forall t, In t (starts new) ->
                  exists now, t = Qmax (nextStartTime (client w)) now).
Proof.
  destruct e as [config | config granted transport_throws | | | | message
                | currentTime | src | ]; unfold handler.
  - (* connect *)
    destruct w as [c ms pd dn no tr].
    destruct c as [ia oa st pr so nst ic sp act].
    destruct ic.
    + eexists; exists []; split; [reflexivity|]. simpl.
      rewrite app_nil_r. repeat split; [now apply Unchanged | intros t []].
    + unfold connect, bind, this, try_catch, fresh, emit, update; simpl.
      eexists; eexists; split; [reflexivity|]. simpl.
      rewrite <- !app_assoc. simpl. split; [reflexivity|]. split.
      * now apply ContextsBuilt with (a := no) (b := S no).
      * intros t [].
  - (* connect, resumed *)
    destruct granted; [destruct transport_throws|].
    + unfold connect_resume, try_catch, throw, connect_catch.
      unfold bind at 1. simpl.
      unfold bind at 1. rewrite emit_eq. unfold bind at 1. rewrite emit_eq.
      rewrite cleanup_eq. eexists; eexists; split; [reflexivity|]. simpl.
      rewrite <- !app_assoc. split; [reflexivity|]. split.
      * now apply Cleaned.
      * no_starts.
    + destruct w as [c ms pd dn no tr].
      destruct c as [ia oa st pr so nst ic sp act].
      unfold connect_resume, bind, try_catch, fresh, emit, update; simpl.
      eexists; eexists; split; [reflexivity|]. simpl.
      split; [reflexivity|]. split.
      * now apply TransportRequested with (s := no) (p := S no).
      * intros t [].
    + unfold connect_resume, try_catch, throw, connect_catch.
      unfold bind at 1. rewrite emit_eq. unfold bind at 1. rewrite emit_eq.
      rewrite cleanup_eq. eexists; eexists; split; [reflexivity|]. simpl.
      rewrite <- !app_assoc. split; [reflexivity|]. split.
      * now apply Cleaned.
      * no_starts.
  - (* onopen *)
    destruct w as [c ms pd dn no tr].
    destruct c as [ia oa st pr so nst ic sp act].
    unfold onopen, startAudioInput, bind, this, emit, update, fresh, ret.
    simpl. destruct ia as [ia|]; [destruct st as [st|]|]; simpl.
    + eexists; eexists; split; [reflexivity|]. simpl.
      rewrite <- !app_assoc. split; [reflexivity|]. split.
      * now apply PipelineStarted with (ctx := ia) (ms := st)
                                       (s := no) (p := S no).
      * intros t [].
    + eexists; eexists; split; [reflexivity|]. simpl.
      rewrite <- !app_assoc. split; [reflexivity|]. split.
      * apply OpenedWithoutPipeline; [now right | reflexivity].
      * intros t [].
    + eexists; eexists; split; [reflexivity|]. simpl.
      rewrite <- !app_assoc. split; [reflexivity|]. split.
      * apply OpenedWithoutPipeline; [now left | reflexivity].
      * intros t [].
  - (* onclose *)
    unfold onclose. unfold bind at 1. rewrite emit_eq.
    unfold bind at 1. rewrite cleanup_eq. rewrite emit_eq.
    eexists; eexists; split; [reflexivity|]. simpl.
    rewrite <- !app_assoc. split; [reflexivity|]. split.
    + now apply Cleaned.
    + no_starts.
  - (* onerror *)
    unfold onerror. unfold bind at 1. rewrite emit_eq.
    unfold bind at 1. rewrite emit_eq. rewrite cleanup_eq.
    eexists; eexists; split; [reflexivity|]. simpl.
    rewrite <- !app_assoc. split; [reflexivity|]. split.
    + now apply Cleaned.
    + no_starts.
  - (* handleMessage *)
    destruct (handleMessage_client base64ToUint8Array stop_raises w message)
      as (w' & new & Hrun & Ht & Hs & Hc).
    exists w', new. split; [exact Hrun|]. split; [exact Ht|]. split.
    + destruct (serverContent message) as [sc|]; [|now apply Unchanged].
      destruct (interrupted sc); [now apply Interrupted | now apply Unchanged].
    + rewrite Hs. intros t [].
  - (* playAudioChunk, resumed *)
    destruct (pending w) as [|u rest] eqn:Hp.
    + exists w, []. unfold playAudioChunk_resume. rewrite Hp.
      rewrite app_nil_r. repeat split; [now apply Unchanged | intros t []].
    + destruct (outputAudioContext (client w)) as [ctx|] eqn:Hc.
      * destruct (decodeAudioData u) as [b|] eqn:Hd.
        -- rewrite (resume_decoded decodeAudioData w u rest b ctx currentTime
                      Hp Hd Hc).
           eexists; eexists; split; [reflexivity|]. simpl.
           split; [reflexivity|]. split.
           ++ apply Scheduled with (ctx := ctx) (uint8Array := u)
                                   (audioBuffer := b)
                                   (currentTime := currentTime); auto.
              simpl. auto.
           ++ simpl. intros t [<-|[]]. now exists currentTime.
        -- rewrite (resume_failed decodeAudioData w u rest currentTime Hp Hd).
           eexists; eexists; split; [reflexivity|]. simpl.
           split; [reflexivity|]. split; [now apply Unchanged | intros t []].
      * rewrite (resume_without_context w u rest currentTime Hp Hc).
        eexists; eexists; split; [reflexivity|]. simpl.
        split; [reflexivity|]. split; [now apply Unchanged | intros t []].
  - (* onended *)
    exists {| client := set_activeSources
                          (Set_delete src (activeSources (client w)))
                          (client w);
              messages := messages w; pending := pending w;
              dateNow := dateNow w; nextObject := nextObject w;
              trace := trace w |}, [].
    split; [reflexivity|]. simpl. rewrite app_nil_r.
    repeat split; [now apply Ended with (src := src) | intros t []].
  - (* disconnect *)
    unfold disconnect. unfold bind at 1. rewrite cleanup_eq.
    unfold bind, this, update. simpl.
    destruct (sessionPromise (client w)) as [p|] eqn:Hsp; simpl;
      eexists; eexists; (split; [reflexivity|]); simpl;
      rewrite <- ?app_assoc; (split; [reflexivity|]);
      (split; [apply Cleaned; simpl; now rewrite Hsp|]).
    + no_starts.
    + no_starts.
Qed.

End HandlerEffects.

(** ** Any sequence of events *)

Lemma In_Set_add (x s : nat) (l : list nat) :
  In s (Set_add x l) -> s = x \/ In s l.
Proof.
  unfold Set_add. destruct (existsb (Nat.eqb x) l); [now right|].
  intro H. apply in_app_or in H. destruct H as [H | [H | []]]; auto.
Qed.

Lemma In_Set_delete (x s : nat) (l : list nat) :
  In s (Set_delete x l) <-> In s l /\ s <> x.
Proof.
  unfold Set_delete. rewrite filter_In, negb_true_iff, Nat.eqb_neq.
  intuition congruence.
Qed.

Section Runs.

Variable base64ToUint8Array : string -> option (list nat).
Variable decodeAudioData : list nat -> option AudioBuffer.
Variable stop_raises : nat -> bool.

(** A property that every handler keeps holds after every sequence of
    events, and every such sequence runs to its end. *)
Lemma events_keep (P : World -> Prop) :
  (forall e w w',
      handler base64ToUint8Array decodeAudioData stop_raises e w = Ret tt w' ->
      P w -> P w') ->
  forall (es : list Event) (w : World),
    P w ->
    exists w',
      events base64ToUint8Array decodeAudioData stop_raises es w = Ret tt w'
      /\ P w'.
Proof.
  intros Hstep es. induction es as [|e es IH]; intros w Hw.
  - exists w. now split.
  - destruct (handler_effect base64ToUint8Array decodeAudioData stop_raises e w)
      as (w1 & new & Hrun & _).
    destruct (IH w1 (Hstep e w w1 Hrun Hw)) as (w' & Hrun' & Hw').
    exists w'. split; [|exact Hw'].
    unfold events in *. simpl. unfold bind at 1. rewrite Hrun. exact Hrun'.
Qed.

(** Every source of the active-set was started, and the active-set is
    empty when there is no output context. *)
Lemma sources_step (e : Event) (w w' : World) :
  handler base64ToUint8Array decodeAudioData stop_raises e w = Ret tt w' ->
  ((forall s, In s (activeSources (client w)) ->
              exists t, In (SourceStart s t) (trace w))
   /\ (outputAudioContext (client w) = None -> activeSources (client w) = [])) ->
  (forall s, In s (activeSources (client w')) ->
             exists t, In (SourceStart s t) (trace w'))
  /\ (outputAudioContext (client w') = None -> activeSources (client w') = []).
Proof.
  intros Hrun [Hs Ho].
  destruct (handler_effect base64ToUint8Array decodeAudioData stop_raises e w)
    as (w1 & new & Hrun1 & Ht & Hch & _).
  rewrite Hrun in Hrun1. injection Hrun1 as <-.
  assert (Hold : forall s, In s (activeSources (client w)) ->
                           exists t, In (SourceStart s t) (trace w')).
  { intros s Hin. destruct (Hs s Hin) as [t Hin']. exists t.
    rewrite Ht. apply in_or_app. now left. }
  destruct Hch as [E | a b _ E | s p E | E | ctx ms s p _ _ E | _ E | E
                  | ctx u b now Hc Hd Hin _ E | src E];
    rewrite E; simpl; try (split; [exact Hold | exact Ho]).
  - split; [exact Hold | discriminate].
  - split; [intros s [] | reflexivity].
  - split; [intros s [] | reflexivity].
  - split.
    + intros s Hin'. apply In_Set_add in Hin'. destruct Hin' as [-> | Hin'].
      * eexists. rewrite Ht. apply in_or_app. right. exact Hin.
      * now apply Hold.
    + rewrite Hc. discriminate.
  - split.
    + intros s Hin. apply In_Set_delete in Hin. apply Hold, Hin.
    + intro H. rewrite (Ho H). reflexivity.
Qed.

(** The handles of the capture side go together. *)
Lemma handles_step (e : Event) (w w' : World) :
  handler base64ToUint8Array decodeAudioData stop_raises e w = Ret tt w' ->
  ((inputAudioContext (client w) = None <-> outputAudioContext (client w) = None)
   /\ (processor (client w) = None <-> source (client w) = None)
   /\ (source (client w) <> None ->
       inputAudioContext (client w) <> None /\ mediaStream (client w) <> None)) ->
  (inputAudioContext (client w') = None <-> outputAudioContext (client w') = None)
  /\ (processor (client w') = None <-> source (client w') = None)
  /\ (source (client w') <> None ->
      inputAudioContext (client w') <> None /\ mediaStream (client w') <> None).
Proof.
  intros Hrun (Hio & Hps & Hs).
  destruct (handler_effect base64ToUint8Array decodeAudioData stop_raises e w)
    as (w1 & new & Hrun1 & _ & Hch & _).
  rewrite Hrun in Hrun1. injection Hrun1 as <-.
  destruct Hch as [E | a b _ E | s p E | E | ctx ms s p Hi Hm E | _ E | E
                  | ctx u b now Hc Hd Hin _ E | src E];
    rewrite E; simpl; try (split; [exact Hio | split; [exact Hps | exact Hs]]).
  - split; [split; discriminate|]. split; [exact Hps|].
    intro H. split; [discriminate | apply Hs, H].
  - split; [exact Hio|]. split; [exact Hps|].
    intro H. split; [apply Hs, H | discriminate].
  - split; [tauto|]. split; [tauto|]. intro H. now elim H.
  - split; [exact Hio|]. split; [split; discriminate|].
    intros _. rewrite Hi, Hm. split; discriminate.
Qed.

End Runs.

(** X8: no handler of the client lets an exception escape to the event
    loop: whatever the decoders do and whichever stop() calls raise, every
    sequence of calls, settled promises and callbacks runs to its end. *)
Theorem no_exception_escapes_a_handler :
  forall (base64ToUint8Array : string -> option (list nat))
         (decodeAudioData : list nat -> option AudioBuffer)
         (stop_raises : nat -> bool) (es : list Event) (w : World),
    exists w',
      events base64ToUint8Array decodeAudioData stop_raises es w = Ret tt w'.
Proof.
  intros base64ToUint8Array decodeAudioData stop_raises es w.
  destruct (events_keep base64ToUint8Array decodeAudioData stop_raises
              (fun _ => True) (fun _ _ _ _ _ => I) es w I) as (w' & H & _).
  now exists w'.
Qed.

(** X9: in every state a new client can reach, each source of the
    active-set has been given to start(), and the active-set is empty
    whenever there is no output context. *)
Theorem active_sources_have_been_started :
  forall (base64ToUint8Array : string -> option (list nat))
         (decodeAudioData : list nat -> option AudioBuffer)
         (stop_raises : nat -> bool) (es : list Event),
    exists w',
      events base64ToUint8Array decodeAudioData stop_raises es newWorld
        = Ret tt w'
      /\ (forall s, In s (activeSources (client w')) ->
                    exists t, In (SourceStart s t) (trace w'))
      /\ (outputAudioContext (client w') = None ->
          activeSources (client w') = []).
Proof.
  intros base64ToUint8Array decodeAudioData stop_raises es.
  apply (events_keep base64ToUint8Array decodeAudioData stop_raises
           (fun w => (forall s, In s (activeSources (client w)) ->
                                exists t, In (SourceStart s t) (trace w))
                     /\ (outputAudioContext (client w) = None ->
                         activeSources (client w) = []))).
  - apply sources_step.
  - split; [intros s [] | reflexivity].
Qed.

(** X10: in every state a new client can reach, the two audio contexts
    are held or not held together, the processor and the microphone source
    node are held or not held together, and these nodes are held only
    while the input context and the media stream are. *)
Theorem capture_handles_go_together :
  forall (base64ToUint8Array : string -> option (list nat))
         (decodeAudioData : list nat -> option AudioBuffer)
         (stop_raises : nat -> bool) (es : list Event),
    exists w',
      events base64ToUint8Array decodeAudioData stop_raises es newWorld
        = Ret tt w'
      /\ (inputAudioContext (client w') = None <->
          outputAudioContext (client w') = None)
      /\ (processor (client w') = None <-> source (client w') = None)
      /\ (source (client w') <> None ->
          inputAudioContext (client w') <> None
          /\ mediaStream (client w') <> None).
Proof.
  intros base64ToUint8Array decodeAudioData stop_raises es.
  apply (events_keep base64ToUint8Array decodeAudioData stop_raises
           (fun w => (inputAudioContext (client w) = None <->
                      outputAudioContext (client w) = None)
                     /\ (processor (client w) = None <-> source (client w) = None)
                     /\ (source (client w) <> None ->
                         inputAudioContext (client w) <> None
                         /\ mediaStream (client w) <> None))).
  - apply handles_step.
  - simpl. repeat split; auto; intro H; now elim H.
Qed.

Section Clock.

Variable base64ToUint8Array : string -> option (list nat).
Variable decodeAudioData : list nat -> option AudioBuffer.
Variable stop_raises : nat -> bool.

Hypothesis durations_not_negative :
  forall uint8Array audioBuffer,
    decodeAudioData uint8Array = Some audioBuffer -> 0 <= duration audioBuffer.

(** One handler either resets nextStartTime to 0 or does not lower it. *)
Lemma clock_step (e : Event) (w : World) :
  exists w',
    handler base64ToUint8Array decodeAudioData stop_raises e w = Ret tt w'
    /\ (nextStartTime (client w') = 0
        \/ nextStartTime (client w) <= nextStartTime (client w')).
Proof.
  destruct (handler_effect base64ToUint8Array decodeAudioData stop_raises e w)
    as (w' & new & Hrun & _ & Hch & _).
  exists w'. split; [exact Hrun|].
  destruct Hch as [E | a b _ E | s p E | E | ctx ms s p _ _ E | _ E | E
                  | ctx u b now Hc Hd Hin _ E | src E];
    rewrite E; simpl; try (right; apply Qle_refl); try (now left).
  right. pose proof (durations_not_negative u b Hd).
  pose proof (Q.le_max_l (nextStartTime (client w)) now). lra.
Qed.

Lemma not_negative_step (e : Event) (w w' : World) :
  handler base64ToUint8Array decodeAudioData stop_raises e w = Ret tt w' ->
  (0 <= nextStartTime (client w)
   /\ forall t, In t (starts (trace w)) -> 0 <= t) ->
  0 <= nextStartTime (client w')
  /\ forall t, In t (starts (trace w')) -> 0 <= t.
Proof.
  intros Hrun [Hn Hs].
  destruct (handler_effect base64ToUint8Array decodeAudioData stop_raises e w)
    as (w1 & new & Hrun1 & Ht & Hch & Hnew).
  rewrite Hrun in Hrun1. injection Hrun1 as <-. split.
  - destruct Hch as [E | a b _ E | s p E | E | ctx ms s p _ _ E | _ E | E
                    | ctx u b now Hc Hd Hin _ E | src E];
      rewrite E; simpl; try exact Hn; try apply Qle_refl.
    pose proof (durations_not_negative u b Hd).
    pose proof (Q.le_max_l (nextStartTime (client w)) now). lra.
  - intros t Hin. rewrite Ht, starts_app in Hin.
    apply in_app_or in Hin. destruct Hin as [Hin | Hin]; [now apply Hs|].
    destruct (Hnew t Hin) as [now ->].
    pose proof (Q.le_max_l (nextStartTime (client w)) now). lra.
Qed.

End Clock.

(** X11: when decoded buffers have durations that are not negative, a
    handler either resets nextStartTime to 0 or leaves it at least as
    large as it was; and in every state a new client can reach,
    nextStartTime is not negative and no source has been given a negative
    start time. *)
Theorem nextStartTime_grows_or_is_reset :
  forall (base64ToUint8Array : string -> option (list nat))
         (decodeAudioData : list nat -> option AudioBuffer)
         (stop_raises : nat -> bool),
    (forall uint8Array audioBuffer,
        decodeAudioData uint8Array = Some audioBuffer ->
        0 <= duration audioBuffer) ->
    (forall (e : Event) (w : World),
        exists w',
          handler base64ToUint8Array decodeAudioData stop_raises e w = Ret tt w'
          /\ (nextStartTime (client w') = 0
              \/ nextStartTime (client w) <= nextStartTime (client w')))
    /\ (forall (es : list Event),
           exists w',
             events base64ToUint8Array decodeAudioData stop_raises es newWorld
               = Ret tt w'
             /\ 0 <= nextStartTime (client w')
             /\ forall t, In t (starts (trace w')) -> 0 <= t).
Proof.
  intros base64ToUint8Array decodeAudioData stop_raises Hdur. split.
  - apply clock_step. exact Hdur.
  - intro es.
    apply (events_keep base64ToUint8Array decodeAudioData stop_raises
             (fun w => 0 <= nextStartTime (client w)
                       /\ forall t, In t (starts (trace w)) -> 0 <= t)).
    + apply not_negative_step. exact Hdur.
    + split; [apply Qle_refl | intros t []].
Qed.

Lemma nextStartTime_grows_or_is_reset_witness :
  (forall (e : Event) (w : World),
      exists w',
        handler example_base64 example_decode never_raises e w = Ret tt w'
        /\ (nextStartTime (client w') = 0
            \/ nextStartTime (client w) <= nextStartTime (client w')))
  /\ (forall (es : list Event),
         exists w',
           events example_base64 example_decode never_raises es newWorld
             = Ret tt w'
           /\ 0 <= nextStartTime (client w')
           /\ forall t, In t (starts (trace w')) -> 0 <= t).
Proof.
  apply (nextStartTime_grows_or_is_reset
           example_base64 example_decode never_raises).
  intros [|[|n] rest] b H; try discriminate H.
  injection H as <-. unfold Qle. simpl. lia.
Defined.

(** ** More on the scheduler *)

Lemma timeline_bounds (cs : list (Q * AudioBuffer)) :
  forall (t : Q) (k : nat) (s now : Q) (b : AudioBuffer),
    (forall n c, nth_error cs n = Some c -> 0 <= duration (snd c)) ->
    nth_error (timeline t cs) k = Some s ->
    nth_error cs k = Some (now, b) ->
    now <= s /\ t <= s.
Proof.
  induction cs as [|[n0 b0] cs IH]; intros t k s now b Hd Hs Hk.
  - destruct k; discriminate.
  - destruct k as [|k]; simpl in *.
    + injection Hs as <-. injection Hk as -> ->.
      split; [apply Q.le_max_r | apply Q.le_max_l].
    + destruct (IH (Qmax t n0 + duration b0) k s now b) as [H1 H2]; auto.
      * intros n c Hn. apply (Hd (S n) c Hn).
      * split; [exact H1|].
        pose proof (Hd 0%nat (n0, b0) eq_refl) as H0. simpl in H0.
        pose proof (Q.le_max_l t n0). lra.
Qed.

(** X12: chunks are never started in the past and never overlap: when the
    decodes of a sequence of chunks settle one after another, every chunk
    that decodes (durations not negative) is started no earlier than the
    device clock read when it is scheduled and no earlier than
    nextStartTime before the sequence, and no earlier than the end of the
    chunk started before it. *)
Theorem chunks_start_neither_in_the_past_nor_overlapping :
  forall (decodeAudioData : list nat -> option AudioBuffer)
         (w : World) (ctx : nat) (chunks : list (Q * option AudioBuffer)),
    outputAudioContext (client w) = Some ctx ->
    map decodeAudioData (pending w) = map snd chunks ->
    (forall n c, nth_error (kept chunks) n = Some c -> 0 <= duration (snd c)) ->
    exists (w' : World) (ss : list Q),
      settle decodeAudioData (map fst chunks) w = Ret tt w'
      /\ starts (trace w') = starts (trace w) ++ ss
      /\ (forall k s now b,
            nth_error ss k = Some s ->
            nth_error (kept chunks) k = Some (now, b) ->
            now <= s /\ nextStartTime (client w) <= s)
      /\ (forall k s s' now b,
            nth_error ss k = Some s ->
            nth_error ss (S k) = Some s' ->
            nth_error (kept chunks) k = Some (now, b) ->
            s + duration b <= s').
Proof.
  intros decodeAudioData w ctx chunks Hc Hp Hd.
  destruct (settle_spec decodeAudioData chunks w ctx Hc Hp)
    as (w' & Hrun & Hs & _).
  exists w', (timeline (nextStartTime (client w)) (kept chunks)).
  split; [exact Hrun|]. split; [exact Hs|]. split.
  - intros k s now b Hk Hck. eapply timeline_bounds; eassumption.
  - intros k s s' now b Hk Hk' Hck.
    destruct (nth_error (kept chunks) (S k)) as [[now' b']|] eqn:Hck'.
    + rewrite (timeline_next _ _ k s now now' b b' Hk Hck Hck') in Hk'.
      injection Hk' as <-. apply Q.le_max_l.
    + apply nth_error_None in Hck'.
      assert (H : nth_error (timeline (nextStartTime (client w)) (kept chunks))
                            (S k) <> None) by congruence.
      apply nth_error_Some in H. rewrite timeline_length in H. lia.
Qed.

Lemma chunks_start_witness :
  exists (w' : World) (ss : list Q),
    settle example_decode (map fst three_chunks) three_pending = Ret tt w'
    /\ starts (trace w') = starts (trace three_pending) ++ ss
    /\ (forall k s now b,
          nth_error ss k = Some s ->
          nth_error (kept three_chunks) k = Some (now, b) ->
          now <= s /\ nextStartTime (client three_pending) <= s)
    /\ (forall k s s' now b,
          nth_error ss k = Some s ->
          nth_error ss (S k) = Some s' ->
          nth_error (kept three_chunks) k = Some (now, b) ->
          s + duration b <= s').
Proof.
  apply (chunks_start_neither_in_the_past_nor_overlapping
           example_decode three_pending 1%nat three_chunks).
  - reflexivity.
  - reflexivity.
  - intros [|[|[|n]]] c H; simpl in H; try discriminate H;
      injection H as <-; unfold Qle; simpl; lia.
Defined.

Lemma releases_silent (c : Client) :
  starts (releases c) = [] /\ created (releases c) = []
  /\ surfaced (releases c) = [] /\ stops (releases c) = [].
Proof.
  unfold releases, handle.
  destruct (mediaStream c), (processor c), (source c),
    (inputAudioContext c), (outputAudioContext c); simpl; auto.
Qed.

Lemma disconnect_eq (w : World) :
  disconnect w =
    Ret tt
      {| client :=
           {| inputAudioContext := None; outputAudioContext := None;
              mediaStream := None; processor := None; source := None;
              nextStartTime := 0; isConnected := false;
              sessionPromise := sessionPromise (client w);
              activeSources := [] |};
         messages := messages w; pending := pending w; dateNow := dateNow w;
         nextObject := nextObject w;
         trace := trace w ++ releases (client w) ++
                  handle SessionCloseQueued (sessionPromise (client w)) |}.
Proof.
  unfold disconnect. unfold bind at 1. rewrite cleanup_eq.
  unfold bind, this, update. simpl.
  destruct (sessionPromise (client w)); simpl;
    rewrite <- ?app_assoc, ?app_nil_r; reflexivity.
Qed.

(** X13: a pending decode that settles after disconnect, before any new
    connect, is dropped: it creates and starts no source, reports nothing
    to onError, only reaches the console, and leaves the client released.
    The decode is not cancelled, though: when connect has been called
    again on the same client before it settles, the chunk is started on
    the new output context, at the maximum of 0 and the device clock. *)
Theorem decode_settled_after_disconnect :
  forall (decodeAudioData : list nat -> option AudioBuffer)
         (w : World) (uint8Array : list nat) (rest : list (list nat))
         (currentTime : Q),
    pending w = uint8Array :: rest ->
    (exists w1 w2,
        disconnect w = Ret tt w1
        /\ playAudioChunk_resume decodeAudioData currentTime w1 = Ret tt w2
        /\ released (client w2)
        /\ pending w2 = rest
        /\ trace w2 = trace w1 ++ [ConsoleError]
        /\ starts (trace w2) = starts (trace w)
        /\ created (trace w2) = created (trace w)
        /\ surfaced (trace w2) = surfaced (trace w))
    /\ (forall (config : LiveConfig) (audioBuffer : AudioBuffer),
           decodeAudioData uint8Array = Some audioBuffer ->
           exists w3 src,
             run [ disconnect; connect config;
                   playAudioChunk_resume decodeAudioData currentTime ] w
               = Ret tt w3
             /\ starts (trace w3) = starts (trace w) ++ [Qmax 0 currentTime]
             /\ created (trace w3) = created (trace w) ++ [src]
             /\ activeSources (client w3) = [src]
             /\ nextStartTime (client w3)
                = Qmax 0 currentTime + duration audioBuffer).
Proof.
  intros decodeAudioData w u rest now Hp.
  destruct (releases_silent (client w)) as (R1 & R2 & R3 & _).
  split.
  - rewrite disconnect_eq.
    eexists; eexists; split; [reflexivity|].
    erewrite resume_without_context; [ | simpl; exact Hp | reflexivity ].
    split; [reflexivity|]. simpl.
    split; [apply released_after_cleanup|].
    split; [reflexivity|]. split; [reflexivity|].
    rewrite !starts_app, !created_app, !surfaced_app, R1, R2, R3.
    destruct (sessionPromise (client w)); simpl; rewrite !app_nil_r; auto.
  - intros config b Hd. unfold run.
    unfold bind at 1. rewrite disconnect_eq.
    unfold bind at 1.
    unfold connect, bind, this, try_catch, fresh, emit, update. simpl.
    erewrite resume_decoded;
      [ | simpl; exact Hp | exact Hd | simpl; reflexivity ].
    eexists; exists (S (S (nextObject w))). split; [reflexivity|]. simpl.
    rewrite !starts_app, !created_app, R1, R2.
    destruct (sessionPromise (client w)); simpl; rewrite ?app_nil_r;
      repeat split; reflexivity.
Qed.

Lemma decode_settled_after_disconnect_witness :
  (exists w1 w2,
      disconnect two_active = Ret tt w1
      /\ playAudioChunk_resume example_decode 11 w1 = Ret tt w2
      /\ released (client w2)
      /\ pending w2 = []
      /\ trace w2 = trace w1 ++ [ConsoleError]
      /\ starts (trace w2) = starts (trace two_active)
      /\ created (trace w2) = created (trace two_active)
      /\ surfaced (trace w2) = surfaced (trace two_active))
  /\ (forall (config : LiveConfig) (audioBuffer : AudioBuffer),
         example_decode [1%nat] = Some audioBuffer ->
         exists w3 src,
           run [ disconnect; connect config;
                 playAudioChunk_resume example_decode 11 ] two_active
             = Ret tt w3
           /\ starts (trace w3) = starts (trace two_active) ++ [Qmax 0 11]
           /\ created (trace w3) = created (trace two_active) ++ [src]
           /\ activeSources (client w3) = [src]
           /\ nextStartTime (client w3) = Qmax 0 11 + duration audioBuffer).
Proof.
  apply (decode_settled_after_disconnect
           example_decode two_active [1%nat] [] 11).
  reflexivity.
Defined.

(** X14: an interruption does not cancel a decode that is in flight: a
    chunk handed to the decoder before the interruption arrives is still
    started when its decode settles afterwards, at the device clock (the
    maximum of 0 and the clock), and is then the only active source. *)
Theorem decode_in_flight_survives_an_interruption :
  forall (base64ToUint8Array : string -> option (list nat))
         (decodeAudioData : list nat -> option AudioBuffer)
         (stop_raises : nat -> bool)
         (w : World) (sc : ServerContent) (uint8Array : list nat)
         (rest : list (list nat)) (audioBuffer : AudioBuffer) (ctx : nat)
         (currentTime : Q),
    interrupted sc = true ->
    pending w = uint8Array :: rest ->
    decodeAudioData uint8Array = Some audioBuffer ->
    outputAudioContext (client w) = Some ctx ->
    exists w1 w2 src,
      handleMessage base64ToUint8Array stop_raises
                    {| serverContent := Some sc |} w = Ret tt w1
      /\ playAudioChunk_resume decodeAudioData currentTime w1 = Ret tt w2
      /\ starts (trace w2) = starts (trace w) ++ [Qmax 0 currentTime]
      /\ activeSources (client w2) = [src]
      /\ created (trace w2) = created (trace w) ++ [src]
      /\ nextStartTime (client w2) = Qmax 0 currentTime + duration audioBuffer.
Proof.
  intros base64ToUint8Array decodeAudioData stop_raises w sc u rest b ctx now
         Hx Hp Hd Hc.
  destruct (handleMessage_spec base64ToUint8Array stop_raises w sc)
    as (w1 & Hrun & _ & _ & Hq & _ & Ha & Hn & Hs & Hcr & _).
  destruct (handleMessage_client base64ToUint8Array stop_raises w
              {| serverContent := Some sc |})
    as (w1' & new & Hrun' & _ & _ & Hcl).
  rewrite Hrun in Hrun'. injection Hrun' as <-.
  simpl in Hcl. rewrite Hx in Hcl, Ha, Hn.
  rewrite Hp in Hq. simpl in Hq.
  assert (Hc1 : outputAudioContext (client w1) = Some ctx)
    by (rewrite Hcl; exact Hc).
  exists w1. eexists. exists (nextObject w1). split; [exact Hrun|].
  rewrite (resume_decoded decodeAudioData w1 u _ b ctx now Hq Hd Hc1).
  split; [reflexivity|]. simpl.
  rewrite starts_app, created_app, Hs, Hcr, Ha, Hn. simpl.
  repeat split; reflexivity.
Qed.

Lemma decode_in_flight_witness :
  exists w1 w2 src,
    handleMessage example_base64 never_raises
                  {| serverContent := Some interrupted_content |} two_active
      = Ret tt w1
    /\ playAudioChunk_resume example_decode 11 w1 = Ret tt w2
    /\ starts (trace w2) = starts (trace two_active) ++ [Qmax 0 11]
    /\ activeSources (client w2) = [src]
    /\ created (trace w2) = created (trace two_active) ++ [src]
    /\ nextStartTime (client w2) = Qmax 0 11 + duration {| duration := 1 |}.
Proof.
  apply (decode_in_flight_survives_an_interruption
           example_base64 example_decode never_raises two_active
           interrupted_content [1%nat] [] {| duration := 1 |} 1%nat 11).
  - reflexivity.
  - reflexivity.
  - reflexivity.
  - reflexivity.
Defined.

Lemma Set_delete_Set_add (x : nat) (l : list nat) :
  ~ In x l -> Set_delete x (Set_add x l) = l.
Proof.
  intro H. unfold Set_add.
  assert (F : forall l', ~ In x l' -> Set_delete x l' = l').
  { induction l' as [|y l' IH]; intro Hn; [reflexivity|]. simpl.
    destruct (Nat.eqb_spec x y) as [-> | Hne].
    - elim Hn. now left.
    - simpl. rewrite IH; [reflexivity|]. intro Hin. apply Hn. now right. }
  destruct (existsb (Nat.eqb x) l) eqn:E.
  - apply existsb_exists in E. destruct E as (y & Hy & Heq).
    apply Nat.eqb_eq in Heq. subst y. contradiction.
  - unfold Set_delete. rewrite filter_app. fold (Set_delete x l).
    rewrite (F l H). simpl. rewrite Nat.eqb_refl. simpl. apply app_nil_r.
Qed.

(** X15: a source that plays to its end leaves the active-set as it was
    before the chunk was scheduled, while the timeline keeps its advance:
    scheduling a decoded chunk and then handling onended of its source
    gives back the earlier active-set, with nextStartTime at the chunk's
    start plus its duration. *)
Theorem a_source_that_ended_leaves_the_active_set :
  forall (decodeAudioData : list nat -> option AudioBuffer)
         (w : World) (uint8Array : list nat) (rest : list (list nat))
         (audioBuffer : AudioBuffer) (ctx : nat) (currentTime : Q),
    pending w = uint8Array :: rest ->
    decodeAudioData uint8Array = Some audioBuffer ->
    outputAudioContext (client w) = Some ctx ->
    ~ In (nextObject w) (activeSources (client w)) ->
    exists w1 w2,
      playAudioChunk_resume decodeAudioData currentTime w = Ret tt w1
      /\ In (nextObject w) (activeSources (client w1))
      /\ onended (nextObject w) w1 = Ret tt w2
      /\ activeSources (client w2) = activeSources (client w)
      /\ nextStartTime (client w2)
         = Qmax (nextStartTime (client w)) currentTime + duration audioBuffer
      /\ trace w2 = trace w1.
Proof.
  intros decodeAudioData w u rest b ctx now Hp Hd Hc Hfresh.
  rewrite (resume_decoded decodeAudioData w u rest b ctx now Hp Hd Hc).
  eexists; eexists; split; [reflexivity|]. simpl. split.
  - unfold Set_add.
    destruct (existsb _ _) eqn:E; [|apply in_or_app; right; now left].
    apply existsb_exists in E. destruct E as (y & Hy & Heq).
    apply Nat.eqb_eq in Heq. now subst y.
  - split; [reflexivity|]. simpl.
    destruct w as [c ms pd dn no tr]; destruct c; simpl in *.
    rewrite Set_delete_Set_add by assumption. repeat split; reflexivity.
Qed.

Lemma a_source_that_ended_witness :
  exists w1 w2,
    playAudioChunk_resume example_decode 0.5 two_pending = Ret tt w1
    /\ In (nextObject two_pending) (activeSources (client w1))
    /\ onended (nextObject two_pending) w1 = Ret tt w2
    /\ activeSources (client w2) = activeSources (client two_pending)
    /\ nextStartTime (client w2)
       = Qmax (nextStartTime (client two_pending)) 0.5
         + duration {| duration := 1 |}
    /\ trace w2 = trace w1.
Proof.
  apply (a_source_that_ended_leaves_the_active_set
           example_decode two_pending [1%nat] [[2%nat]] {| duration := 1 |}
           1%nat 0.5).
  - reflexivity.
  - reflexivity.
  - reflexivity.
  - simpl. tauto.
Defined.

(** ** More on the life cycle *)

(** Runs a sequence of handlers on a state with unknown fields, by value,
    so that the state is not copied at every step. *)
Ltac run_by_value :=
  cbv [run connect connect_resume connect_catch onopen onclose onerror
       startAudioInput disconnect cleanup bind ret throw try_catch this
       fresh emit update client messages pending dateNow nextObject trace
       inputAudioContext outputAudioContext mediaStream processor source
       nextStartTime isConnected sessionPromise activeSources
       set_inputAudioContext set_outputAudioContext set_mediaStream
       set_processor set_source set_nextStartTime set_isConnected
       set_sessionPromise set_activeSources];
  eexists; split; [reflexivity|].

(** X16: a whole session gives back what it acquired: from a client that
    is not connected, connect, a granted microphone, an opened transport,
    onopen and then disconnect leave the client released, and each object
    acquired on the way (the two audio contexts, the media stream, the
    source and processor nodes, the session) is given back once, in the
    order of cleanup. *)
Theorem a_session_gives_back_what_it_acquired :
  forall (config : LiveConfig) (w : World),
    isConnected (client w) = false ->
    exists w',
      run [ connect config; connect_resume config true false; onopen;
            disconnect ] w = Ret tt w'
      /\ released (client w')
      /\ trace w' =
           trace w ++
           [ NewAudioContext (nextObject w) 16000;
             NewAudioContext (1 + nextObject w) 24000;
             GetUserMedia;
             LiveConnect (3 + nextObject w) config;
             ConsoleLog; OnOpen;
             CreateMediaStreamSource (4 + nextObject w) (2 + nextObject w);
             CreateScriptProcessor (5 + nextObject w);
             ConnectNodes (4 + nextObject w) (5 + nextObject w);
             ConnectNodes (5 + nextObject w) (nextObject w);
             TracksStop (2 + nextObject w);
             NodeDisconnect (5 + nextObject w);
             NodeDisconnect (4 + nextObject w);
             ContextClose (nextObject w);
             ContextClose (1 + nextObject w);
             SessionCloseQueued (3 + nextObject w) ].
Proof.
  intros config w Hc.
  destruct w as [c ms pd dn no tr].
  destruct c as [ia oa st pr so nst ic sp act]. simpl in Hc. subst ic.
  run_by_value.
  split; [apply released_after_cleanup|].
  simpl. rewrite <- !app_assoc. reflexivity.
Qed.

Lemma a_session_witness :
  exists w',
    run [ connect example_config; connect_resume example_config true false;
          onopen; disconnect ] newWorld = Ret tt w'
    /\ released (client w')
    /\ trace w' =
         trace newWorld ++
         [ NewAudioContext (nextObject newWorld) 16000;
           NewAudioContext (1 + nextObject newWorld) 24000;
           GetUserMedia;
           LiveConnect (3 + nextObject newWorld) example_config;
           ConsoleLog; OnOpen;
           CreateMediaStreamSource (4 + nextObject newWorld)
                                   (2 + nextObject newWorld);
           CreateScriptProcessor (5 + nextObject newWorld);
           ConnectNodes (4 + nextObject newWorld) (5 + nextObject newWorld);
           ConnectNodes (5 + nextObject newWorld) (nextObject newWorld);
           TracksStop (2 + nextObject newWorld);
           NodeDisconnect (5 + nextObject newWorld);
           NodeDisconnect (4 + nextObject newWorld);
           ContextClose (nextObject newWorld);
           ContextClose (1 + nextObject newWorld);
           SessionCloseQueued (3 + nextObject newWorld) ].
Proof.
  apply (a_session_gives_back_what_it_acquired example_config newWorld).
  reflexivity.
Defined.

(** X17: when the remote side closes the session, onclose first gives
    back every handle the client holds and only then calls onClose; the
    client is released afterwards, and a disconnect that follows has
    nothing left to release. *)
Theorem remote_close_releases_before_onClose :
  forall (w : World),
    exists w' w'',
      onclose w = Ret tt w'
      /\ released (client w')
      /\ trace w' = trace w ++ [ConsoleLog] ++ releases (client w) ++ [OnClose]
      /\ disconnect w' = Ret tt w''
      /\ trace w'' =
           trace w' ++ handle SessionCloseQueued (sessionPromise (client w)).
Proof.
  intro w. unfold onclose. unfold bind at 1. rewrite emit_eq.
  unfold bind at 1. rewrite cleanup_eq. rewrite emit_eq.
  eexists; eexists; split; [reflexivity|]. simpl.
  split; [apply released_after_cleanup|].
  split; [now rewrite <- !app_assoc|].
  rewrite disconnect_eq. split; [reflexivity|]. reflexivity.
Qed.

(** X18: an onopen that arrives when the input context or the media
    stream is missing (for instance after a disconnect) marks the client
    connected and calls onOpen, but builds no capture node; a connect
    made afterwards then does nothing at all. *)
Theorem late_onopen_builds_no_pipeline :
  forall (config : LiveConfig) (w : World),
    inputAudioContext (client w) = None \/ mediaStream (client w) = None ->
    exists w',
      onopen w = Ret tt w'
      /\ client w' = set_isConnected true (client w)
      /\ nextObject w' = nextObject w
      /\ trace w' = trace w ++ [ConsoleLog; OnOpen]
      /\ connect config w' = Ret tt w'.
Proof.
  intros config w H.
  destruct w as [c ms pd dn no tr].
  destruct c as [ia oa st pr so nst ic sp act]. simpl in H.
  unfold onopen, startAudioInput, bind, this, emit, update, fresh, ret.
  simpl.
  destruct ia as [ia|]; [destruct st as [st|]|]; simpl;
    try (destruct H; discriminate);
    eexists; (split; [reflexivity|]); simpl;
    rewrite <- !app_assoc; repeat split; reflexivity.
Qed.

Lemma late_onopen_witness :
  exists w',
    onopen newWorld = Ret tt w'
    /\ client w' = set_isConnected true (client newWorld)
    /\ nextObject w' = nextObject newWorld
    /\ trace w' = trace newWorld ++ [ConsoleLog; OnOpen]
    /\ connect example_config w' = Ret tt w'.
Proof.
  apply (late_onopen_builds_no_pipeline example_config newWorld).
  left. reflexivity.
Defined.

(** X19: a disconnect made while getUserMedia is pending does not cancel
    the connect: when the microphone is granted afterwards, the resumed
    connect keeps the media stream and opens the transport although both
    audio contexts are gone, and returns with the stream still held. Its
    tracks are stopped by the next cleanup, whichever handler runs it: a
    further disconnect, onclose or onerror. *)
Theorem disconnect_does_not_cancel_a_pending_connect :
  forall (config : LiveConfig) (w : World),
    isConnected (client w) = false ->
    exists w',
      run [ connect config; disconnect; connect_resume config true false ] w
        = Ret tt w'
      /\ inputAudioContext (client w') = None
      /\ outputAudioContext (client w') = None
      /\ mediaStream (client w') = Some (2 + nextObject w)%nat
      /\ sessionPromise (client w') = Some (3 + nextObject w)%nat
      /\ transports (trace w') = transports (trace w) ++ [(3 + nextObject w)%nat]
      /\ (exists w'',
            disconnect w' = Ret tt w''
            /\ trace w'' = trace w' ++ [ TracksStop (2 + nextObject w);
                                         SessionCloseQueued (3 + nextObject w) ])
      /\ (exists w'',
            onclose w' = Ret tt w''
            /\ trace w'' = trace w' ++ [ ConsoleLog;
                                         TracksStop (2 + nextObject w);
                                         OnClose ])
      /\ (exists w'',
            onerror w' = Ret tt w''
            /\ trace w'' = trace w' ++ [ ConsoleError;
                                         OnError TransportError;
                                         TracksStop (2 + nextObject w) ]).
Proof.
  intros config w Hc.
  destruct w as [c ms pd dn no tr].
  destruct c as [ia oa st pr so nst ic sp act]. simpl in Hc. subst ic.
  destruct st, pr, so, sp; run_by_value; simpl.
  all: repeat split.
  all: try (unfold transports; rewrite <- ?app_assoc, flat_map_app; simpl;
            reflexivity).
  all: eexists; split; [reflexivity|]; simpl; rewrite <- ?app_assoc;
    reflexivity.
Qed.

Lemma disconnect_does_not_cancel_witness :
  exists w',
    run [ connect example_config; disconnect;
          connect_resume example_config true false ] newWorld = Ret tt w'
    /\ inputAudioContext (client w') = None
    /\ outputAudioContext (client w') = None
    /\ mediaStream (client w') = Some (2 + nextObject newWorld)%nat
    /\ sessionPromise (client w') = Some (3 + nextObject newWorld)%nat
    /\ transports (trace w') =
         transports (trace newWorld) ++ [(3 + nextObject newWorld)%nat]
    /\ (exists w'',
          disconnect w' = Ret tt w''
          /\ trace w'' = trace w' ++ [ TracksStop (2 + nextObject newWorld);
                                       SessionCloseQueued (3 + nextObject newWorld) ])
    /\ (exists w'',
          onclose w' = Ret tt w''
          /\ trace w'' = trace w' ++ [ ConsoleLog;
                                       TracksStop (2 + nextObject newWorld);
                                       OnClose ])
    /\ (exists w'',
          onerror w' = Ret tt w''
          /\ trace w'' = trace w' ++ [ ConsoleError;
                                       OnError TransportError;
                                       TracksStop (2 + nextObject newWorld) ]).
Proof.
  apply (disconnect_does_not_cancel_a_pending_connect example_config newWorld).
  reflexivity.
Defined.

(** X20: once onopen has run, connect is a no-op: whatever the state in
    which the session opens, a connect made afterwards changes neither the
    client nor the trace. *)
Theorem connect_after_onopen_does_nothing :
  forall (config : LiveConfig) (w : World),
    exists w',
      onopen w = Ret tt w'
      /\ isConnected (client w') = true
      /\ connect config w' = Ret tt w'.
Proof.
  intros config w.
  destruct w as [c ms pd dn no tr].
  destruct c as [ia oa st pr so nst ic sp act].
  unfold onopen, startAudioInput, bind, this, emit, update, fresh, ret.
  simpl.
  destruct ia as [ia|]; [destruct st as [st|]|]; simpl;
    eexists; (split; [reflexivity|]); split; reflexivity.
Qed.

(** X21: tearing the session down never calls stop() on a scheduled
    source: disconnect, onclose and onerror empty the active-set and reset
    nextStartTime, but the sources that were in it, started or still to
    start, are only dropped with the closed output context. *)
Theorem teardown_never_stops_a_source :
  forall (w : World),
    (exists w',
        disconnect w = Ret tt w'
        /\ activeSources (client w') = [] /\ nextStartTime (client w') = 0
        /\ stops (trace w') = stops (trace w))
    /\ (exists w',
           onclose w = Ret tt w'
           /\ activeSources (client w') = [] /\ nextStartTime (client w') = 0
           /\ stops (trace w') = stops (trace w))
    /\ (exists w',
           onerror w = Ret tt w'
           /\ activeSources (client w') = [] /\ nextStartTime (client w') = 0
           /\ stops (trace w') = stops (trace w)).
Proof.
  intro w. destruct (releases_silent (client w)) as (_ & _ & _ & R).
  split; [|split].
  - rewrite disconnect_eq. eexists; split; [reflexivity|]. simpl.
    rewrite !stops_app, R.
    destruct (sessionPromise (client w)); simpl; rewrite !app_nil_r; auto.
  - unfold onclose. unfold bind at 1. rewrite emit_eq.
    unfold bind at 1. rewrite cleanup_eq. rewrite emit_eq.
    eexists; split; [reflexivity|]. simpl.
    rewrite !stops_app, R. simpl. rewrite !app_nil_r. auto.
  - unfold onerror. unfold bind at 1. rewrite emit_eq.
    unfold bind at 1. rewrite emit_eq. rewrite cleanup_eq.
    eexists; split; [reflexivity|]. simpl.
    rewrite !stops_app, R. simpl. rewrite !app_nil_r. auto.
Qed.

(** ** The system instruction *)

(** X22: the system instruction depends on the mode and, in roleplay mode
    only, on the scenario: two configs with the same mode get the same
    instruction, whatever their voices, as soon as they are not in
    roleplay mode or have the same scenario. *)
Theorem scenario_matters_only_in_roleplay :
  forall (c1 c2 : LiveConfig),
    mode c1 = mode c2 ->
    (mode c1 = ROLEPLAY -> scenario c1 = scenario c2) ->
    systemInstruction c1 = systemInstruction c2.
Proof.
  intros [m1 s1 v1] [m2 s2 v2]. simpl. intros <- H.
  unfold systemInstruction. simpl.
  destruct m1; try reflexivity. now rewrite H.
Qed.

Lemma scenario_matters_only_in_roleplay_witness :
  systemInstruction {| mode := PRONUNCIATION; scenario := Some INTERVIEW;
                       voiceName := "Kore" |}
  = systemInstruction {| mode := PRONUNCIATION; scenario := None;
                         voiceName := "Puck" |}.
Proof.
  apply (scenario_matters_only_in_roleplay
           {| mode := PRONUNCIATION; scenario := Some INTERVIEW;
              voiceName := "Kore" |}
           {| mode := PRONUNCIATION; scenario := None; voiceName := "Puck" |}).
  - reflexivity.
  - discriminate.
Defined.

Lemma append_inj_l (a b c : string) :
  String.append a b = String.append a c -> b = c.
Proof.
  induction a as [|x a IH]; simpl; [auto|]. intros [= H]. auto.
Qed.

(** X23: in roleplay mode the instruction tells the scenarios apart: two
    roleplay configs get the same instruction exactly when they have the
    same scenario, or when each of them has the scenario None or no
    scenario at all, which both get the text of the default branch. *)
Theorem roleplay_instruction_tells_scenarios_apart :
  forall (s1 s2 : option RoleplayScenario) (v1 v2 : string),
    systemInstruction {| mode := ROLEPLAY; scenario := s1; voiceName := v1 |}
    = systemInstruction {| mode := ROLEPLAY; scenario := s2; voiceName := v2 |}
    <-> (s1 = s2
         \/ ((s1 = None \/ s1 = Some NONE) /\ (s2 = None \/ s2 = Some NONE))).
Proof.
  intros s1 s2 v1 v2. unfold systemInstruction. cbn [mode scenario]. split.
  - intro H. apply append_inj_l in H.
    destruct s1 as [[]|], s2 as [[]|]; auto; exfalso; revert H;
      apply String.eqb_neq; vm_compute; reflexivity.
  - intros [-> | [[-> | ->] [-> | ->]]]; reflexivity.
Qed.

(** ** The setup screen *)

Lemma clicks_snoc (cs : list Click) (c : Click) :
  clicks (cs ++ [c]) = click c (clicks cs).
Proof. unfold clicks. now rewrite fold_left_app. Qed.

Lemma setup_invariant (cs : list Click) :
  In (setup_scenario (clicks cs)) (map fst SCENARIOS)
  /\ In (setup_voice (clicks cs)) (map fst VOICES).
Proof.
  induction cs as [|c cs IH] using rev_ind.
  - simpl. auto.
  - rewrite clicks_snoc. destruct IH as [Hs Hv].
    destruct c as [m | k | k]; unfold click.
    + cbn [setup_scenario setup_voice]. auto.
    + destruct (CoachMode_eqb _ _); [|auto].
      destruct (nth_error SCENARIOS k) as [e|] eqn:E; [|auto].
      cbn [setup_scenario setup_voice].
      split; [|exact Hv]. apply in_map. eapply nth_error_In. exact E.
    + destruct (nth_error VOICES k) as [v|] eqn:E; [|auto].
      cbn [setup_scenario setup_voice].
      split; [exact Hs|]. apply in_map. eapply nth_error_In. exact E.
Qed.

(** X24: whatever the user clicks on the setup screen, the config that
    handleStart gives to onStart has one of the five listed voices; in
    roleplay mode its scenario is one of the three listed scenarios, so
    that connect never takes the default branch of its switch, and in the
    other modes its scenario is None. *)
Theorem setup_never_reaches_the_default_scenario :
  forall (cs : list Click),
    In (voiceName (handleStart (clicks cs)))
       ["Puck"%string; "Kore"%string; "Fenrir"%string; "Aoede"%string;
        "Charon"%string]
    /\ (mode (handleStart (clicks cs)) = ROLEPLAY ->
        In (scenario (handleStart (clicks cs)))
           [Some RESTAURANT; Some DIRECTIONS; Some INTERVIEW]
        /\ scenarioContext (scenario (handleStart (clicks cs)))
           <> scenarioContext (Some NONE))
    /\ (mode (handleStart (clicks cs)) <> ROLEPLAY ->
        scenario (handleStart (clicks cs)) = Some NONE).
Proof.
  intro cs. destruct (setup_invariant cs) as [Hs Hv].
  unfold handleStart. simpl.
  split; [exact Hv|]. split.
  - intro Hm. rewrite Hm. simpl.
    simpl in Hs. destruct Hs as [<- | [<- | [<- | []]]]; simpl;
      (split; [auto|]); apply String.eqb_neq; vm_compute; reflexivity.
  - intro Hm. destruct (setup_mode (clicks cs)); simpl; congruence.
Qed.

(** ** The capture callback *)

(** X25: no microphone audio leaves a client that is not connected: on a
    new client, and after disconnect, onclose or onerror, a callback of
    the script processor gives out nothing, neither a loudness nor a blob
    for the session, whatever the samples. *)
Theorem no_audio_is_sent_after_teardown :
  forall (Math_sqrt : Q -> Q) (createPcmBlob : list Q -> list nat)
         (inputData : list Q) (w : World),
    onaudioprocess Math_sqrt createPcmBlob inputData newClient = []
    /\ onaudioprocess Math_sqrt createPcmBlob inputData
                      (client (world_of (disconnect w))) = []
    /\ onaudioprocess Math_sqrt createPcmBlob inputData
                      (client (world_of (onclose w))) = []
    /\ onaudioprocess Math_sqrt createPcmBlob inputData
                      (client (world_of (onerror w))) = [].
Proof.
  intros Math_sqrt createPcmBlob inputData w.
  split; [reflexivity|]. split; [|split].
  - rewrite disconnect_eq. reflexivity.
  - unfold onclose. unfold bind at 1. rewrite emit_eq.
    unfold bind at 1. rewrite cleanup_eq. rewrite emit_eq. reflexivity.
  - unfold onerror. unfold bind at 1. rewrite emit_eq.
    unfold bind at 1. rewrite emit_eq. rewrite cleanup_eq. reflexivity.
Qed.

Lemma sumOfSquares_bounds (inputData : list Q) :
  forall (acc bound : Q),
    (forall x, In x inputData -> -1 <= x /\ x <= 1) ->
    0 <= acc -> acc <= bound ->
    0 <= fold_left (fun sum x => sum + x * x) inputData acc
    /\ fold_left (fun sum x => sum + x * x) inputData acc
       <= bound + inject_Z (Z.of_nat (List.length inputData)).
Proof.
  induction inputData as [|x l IH]; intros acc bound Hx H0 Hb.
  - simpl. split; [exact H0|]. unfold inject_Z. simpl. lra.
  - assert (Hx0 : -1 <= x /\ x <= 1) by (apply Hx; now left).
    assert (Hsq : 0 <= x * x /\ x * x <= 1) by nra.
    destruct (IH (acc + x * x) (bound + 1)) as [L U].
    + intros y Hy. apply Hx. now right.
    + lra.
    + lra.
    + simpl fold_left. split; [exact L|].
      eapply Qle_trans; [exact U|].
      change (List.length (x :: l)) with (S (List.length l)).
      rewrite Nat2Z.inj_succ, <- Z.add_1_r, inject_Z_plus.
      change (inject_Z 1) with 1. lra.
Qed.

(** X26: for a frame that is not empty and whose samples lie between -1
    and 1, the mean of the squares that onaudioprocess hands to Math.sqrt
    lies between 0 and 1 (in exact arithmetic). *)
Theorem meanSquare_is_between_0_and_1 :
  forall (inputData : list Q),
    inputData <> [] ->
    (forall x, In x inputData -> -1 <= x /\ x <= 1) ->
    0 <= meanSquare inputData /\ meanSquare inputData <= 1.
Proof.
  intros inputData Hne Hx. unfold meanSquare, sumOfSquares.
  destruct (sumOfSquares_bounds inputData 0 0 Hx) as [L U]; try lra.
  assert (Hn : 0 < inject_Z (Z.of_nat (List.length inputData))).
  { destruct inputData as [|x l]; [now elim Hne|].
    change 0 with (inject_Z 0). rewrite <- Zlt_Qlt. simpl. lia. }
  split.
  - apply Qle_shift_div_l; [exact Hn | lra].
  - apply Qle_shift_div_r; [exact Hn | lra].
Qed.

Lemma meanSquare_witness :
  0 <= meanSquare [0.5; -1; 0] /\ meanSquare [0.5; -1; 0] <= 1.
Proof.
  apply (meanSquare_is_between_0_and_1 [0.5; -1; 0]).
  - discriminate.
  - intros x [<- | [<- | [<- | []]]]; split; unfold Qle; simpl; lia.
Defined.

(** ** The visualizer *)

Lemma smooth_between (amplitude r : Q) :
  r <= targetRadius amplitude ->
  r <= smooth amplitude r /\ smooth amplitude r <= targetRadius amplitude.
Proof. unfold smooth. intro H. lra. Qed.

(** X27: with an amplitude that is not negative, the radius of the
    visualizer starts at the base radius 50 and moves towards its target
    50 + 140 * amplitude without ever passing it or moving back: after
    every frame it is at least what it was and at most the target, and
    its distance to the target has shrunk by a fifth. For an amplitude of
    at most 1 it therefore stays within 50 and 190 (in exact
    arithmetic). *)
Theorem visualizer_radius_approaches_its_target :
  forall (isActive : bool) (amplitude : Q) (n : nat),
    0 <= amplitude ->
    targetRadius amplitude == 50 + 140 * amplitude
    /\ 50 <= radius_after n isActive amplitude
    /\ radius_after n isActive amplitude
       <= radius_after (S n) isActive amplitude
    /\ radius_after (S n) isActive amplitude <= targetRadius amplitude
    /\ targetRadius amplitude - radius_after (S n) isActive amplitude
       == 0.8 * (targetRadius amplitude - radius_after n isActive amplitude)
    /\ (amplitude <= 1 -> radius_after (S n) isActive amplitude <= 190).
Proof.
  intros isActive amplitude n Ha.
  assert (T : targetRadius amplitude == 50 + 140 * amplitude)
    by (unfold targetRadius, baseRadius, maxRadius; ring).
  assert (I : forall k, 50 <= radius_after k isActive amplitude
                        /\ radius_after k isActive amplitude
                           <= targetRadius amplitude).
  { induction k as [|k [L U]].
    - simpl. rewrite T. split; lra.
    - change (radius_after (S k) isActive amplitude)
        with (smooth amplitude (radius_after k isActive amplitude)).
      destruct (smooth_between amplitude _ U). split; lra. }
  destruct (I n) as [L U].
  change (radius_after (S n) isActive amplitude)
    with (smooth amplitude (radius_after n isActive amplitude)).
  destruct (smooth_between amplitude _ U) as [M V].
  split; [exact T|]. split; [exact L|]. split; [exact M|]. split; [exact V|].
  split; [unfold smooth; ring|]. intro H1. rewrite T in V. lra.
Qed.

Lemma visualizer_radius_witness :
  targetRadius 0.5 == 50 + 140 * 0.5
  /\ 50 <= radius_after 3 true 0.5
  /\ radius_after 3 true 0.5 <= radius_after 4 true 0.5
  /\ radius_after 4 true 0.5 <= targetRadius 0.5
  /\ targetRadius 0.5 - radius_after 4 true 0.5
     == 0.8 * (targetRadius 0.5 - radius_after 3 true 0.5)
  /\ (0.5 <= 1 -> radius_after 4 true 0.5 <= 190).
Proof.
  apply (visualizer_radius_approaches_its_target true 0.5 3).
  unfold Qle. simpl. lia.
Defined.
